(** * MultiUDPMuxDefault: the aggregate UDP multiplexer of [udp_mux_multi.go]

    A shallow embedding of the aggregation facade, of its per-IP address
    balancer and of the socket factory [NewMultiUDPMuxFromPorts], followed
    by the properties of the specification that concern them.

    - Go's [int32] is a [Z] with the two's-complement wrap-around written
      out ([wrap32]); [%] is Go's truncated remainder, [Z.rem].
    - Go maps are [gmap]s keyed by strings.
    - Calls to collaborators (the constituent multiplexers, the network
      abstraction, sockets) are the events of a small free monad [Prog];
      a run-time panic is the constructor [Panic].  A program is run
      against an arbitrary, stateful answer to each call ([Handler]) and
      the run records every call with its answer. *)

From Stdlib Require Import ZArith NArith.
From stdpp Require Import base numbers option list strings pretty gmap fin_maps.

Local Open Scope Z_scope.

(** ** Machine integers *)

Module Int32.

Definition max_int : Z := 2 ^ 31 - 1.
Definition min_int : Z := - 2 ^ 31.

(** Conversion to [int32], and the result of any [int32] operation: the
    value modulo 2^32, read as a signed number. *)
Definition wrap32 (z : Z) : Z := (z + 2 ^ 31) `mod` 2 ^ 32 - 2 ^ 31.

Definition in_range (z : Z) : Prop := min_int ≤ z ≤ max_int.

End Int32.
Export Int32.

(** ** Values handed around *)

(** [net.IP] is a byte slice. *)
Definition IP : Type := list Z.

(** [net.UDPAddr] *)
Record UDPAddr : Type := mkUDPAddr {
  udp_IP : IP;
  udp_Port : Z;
  udp_Zone : string;
}.

(** [net.Addr] is an interface; the constructor of the aggregate asserts
    that the dynamic type of a listen address is [*net.UDPAddr] (line 49),
    every other implementation is kept apart. *)
Inductive Addr : Type :=
| AddrUDP (a : UDPAddr)
| AddrOther (network text : string).

(** Modelled from the spec: [errNoUDPMuxAvailable] is declared in another
    file of the package; the spec calls it the "address not recognized"
    error, which no delegate produces itself.  The other constructors are
    the errors of collaborators and [fmt.Errorf]'s wrapping. *)
Inductive error : Type :=
| errNoUDPMuxAvailable
| ErrExternal (msg : string)
| ErrWrap (msg : string) (err : error).

(** Interface values are references to the collaborator behind them. *)
Inductive UDPMux : Type := MuxRef (id : nat).
Inductive Net : Type := NetRef (id : nat).
Inductive Logger : Type := LoggerRef (id : nat).

(** [net.PacketConn]: a socket, a connection handed out by a multiplexer,
    or a socket wrapped by [tudp.NewBatchConn]. *)
Inductive PacketConn : Type :=
| ConnRef (id : nat)
| BatchConn (conn : PacketConn) (batchWriteSize batchWriteInterval : Z).

Inductive NetworkType : Type :=
| NetworkTypeUDP4 | NetworkTypeUDP6 | NetworkTypeTCP4 | NetworkTypeTCP6.

(** ** The address balancer *)

(** [multiPortsAddress] (lines 31-34): the cursor is an [atomic.Int32],
    zero when the group is created. *)
Record multiPortsAddress : Type := mkMPA {
  addresses : list Addr;
  nextPos : Z;
}.

(** [addr.nextPos.Add(delta)]: the atomic addition, which wraps around and
    hands back the new value. *)
Definition nextPos_Add (delta : Z) (mpa : multiPortsAddress) : Z * multiPortsAddress :=
  let v := wrap32 (nextPos mpa + delta) in
  (v, {| addresses := addresses mpa; nextPos := v |}).

(** Indexing a slice by an [int32]: a run-time panic outside
    [0 .. len-1]. *)
Definition index_int32 {A} (l : list A) (i : Z) : option A :=
  if bool_decide (i < 0) then None else l !! Z.to_nat i.

(** [next] (lines 36-38).  [None] stands for the run-time panic (an index
    out of range, or the integer division by zero of an empty group); the
    cursor has been advanced in either case. *)
Definition next (mpa : multiPortsAddress) : option Addr * multiPortsAddress :=
  let '(pos, mpa') := nextPos_Add 1 mpa in
  let n := wrap32 (Z.of_nat (length (addresses mpa))) in
  if bool_decide (n = 0) then (None, mpa')
  else (index_int32 (addresses mpa) (Z.rem pos n), mpa').

(** The group as [k] sequential calls of [next] leave it. *)
Definition after_calls (k : N) (mpa : multiPortsAddress) : multiPortsAddress :=
  N.iter k (λ g, (next g).2) mpa.

(** The results of [n] sequential calls of [next], oldest first; the
    sequence stops at a panic. *)
Fixpoint next_n (n : nat) (mpa : multiPortsAddress) : list (option Addr) :=
  match n with
  | O => []
  | S n' =>
      let '(r, mpa') := next mpa in
      match r with
      | None => [None]
      | Some a => Some a :: next_n n' mpa'
      end
  end.

(** A group as the constructor leaves it: cursor zero. *)
Definition fresh_group (addrs : list Addr) : multiPortsAddress :=
  {| addresses := addrs; nextPos := 0 |}.

(** A non-empty group whose size fits the [int32] conversion of line 37. *)
Definition fits_int32 (mpa : multiPortsAddress) : Prop :=
  0 < Z.of_nat (length (addresses mpa)) ≤ max_int.

(** ** Calls to collaborators *)

(** [multiUDPMuxFromPortParam] (lines 185-196); a nil function, logger or
    network is [None]. *)
Record multiUDPMuxFromPortParam : Type := mkParam {
  ifFilter : option (string → bool);
  ipFilter : option (IP → bool);
  networks : list NetworkType;
  readBufferSize : Z;
  writeBufferSize : Z;
  logger : option Logger;
  includeLoopback : bool;
  net : option Net;
  batchWriteSize : Z;
  batchWriteInterval : Z;
}.

(** The calls this file makes to code outside it, indexed by the type of
    the answer.  A fallible collaborator answers with a value or an error;
    [GetConn]'s pair is handed on untouched, so it is kept as Go's pair. *)
Inductive Call : Type → Type :=
| Mux_GetConn (mux : UDPMux) (ufrag : string) (addr : Addr) :
    Call (option PacketConn * option error)
| Mux_RemoveConnByUfrag (mux : UDPMux) (ufrag : string) : Call unit
| Mux_Close (mux : UDPMux) : Call (option error)
| Mux_GetListenAddresses (mux : UDPMux) : Call (list Addr)
| Stdnet_NewNet : Call (Net + error)
| Call_localInterfaces (n : Net) (ifF : option (string → bool))
    (ipF : option (IP → bool)) (nets : list NetworkType) (loopback : bool) :
    Call (list IP + error)
| Net_ListenUDP (n : Net) (network : string) (laddr : UDPAddr) :
    Call (PacketConn + error)
| Conn_SetReadBuffer (conn : PacketConn) (bytes : Z) : Call (option error)
| Conn_SetWriteBuffer (conn : PacketConn) (bytes : Z) : Call (option error)
| Conn_Close (conn : PacketConn) : Call (option error)
| Call_NewUDPMuxDefault (lg : option Logger) (conn : PacketConn) (n : option Net) :
    Call UDPMux.

(** Programs: return, panic, or call a collaborator and go on with its
    answer. *)
Inductive Prog (R : Type) : Type :=
| Ret (r : R)
| Panic
| Vis {X : Type} (c : Call X) (k : X → Prog R).
Arguments Ret {R} r.
Arguments Panic {R}.
Arguments Vis {R X} c k.

Fixpoint bind {A B} (p : Prog A) (k : A → Prog B) : Prog B :=
  match p with
  | Ret a => k a
  | Panic => Panic
  | Vis c k' => Vis c (λ x, bind (k' x) k)
  end.

Definition call {X} (c : Call X) : Prog X := Vis c Ret.

Global Instance Prog_ret : MRet Prog := @Ret.
Global Instance Prog_bind : MBind Prog := λ A B k p, bind p k.

(** One recorded call: the call and the answer it got. *)
Inductive Event : Type :=
| Ev {X : Type} (c : Call X) (x : X).

(** A call without its answer. *)
Inductive Called : Type :=
| Was {X : Type} (c : Call X).

Definition call_of (e : Event) : Called :=
  match e with Ev c _ => Was c end.

(** The collaborators: any answer to any call, depending on a state of
    their own. *)
Definition Handler (W : Type) : Type := ∀ X, Call X → W → X * W.

(** Running a program: the result ([None] after a panic), the
    collaborators' final state and the calls made, oldest first. *)
Fixpoint run {W R} (h : Handler W) (p : Prog R) (w : W) : option R * W * list Event :=
  match p with
  | Ret r => (Some r, w, [])
  | Panic => (None, w, [])
  | Vis c k =>
      let '(x, w1) := h _ c w in
      let '(r, w2, log) := run h (k x) w1 in
      (r, w2, Ev c x :: log)
  end.

(** *** What a log shows *)

Definition close_answer (e : Event) : option (option error) :=
  match e with
  | Ev c x =>
      match c in Call X return X → option (option error) with
      | Mux_Close _ => λ r, Some r
      | _ => λ _, None
      end x
  end.

Definition listen_answer (e : Event) : option (PacketConn + error) :=
  match e with
  | Ev c x =>
      match c in Call X return X → option (PacketConn + error) with
      | Net_ListenUDP _ _ _ => λ r, Some r
      | _ => λ _, None
      end x
  end.

Definition listen_addr (e : Event) : option UDPAddr :=
  match e with
  | Ev (Net_ListenUDP _ _ laddr) _ => Some laddr
  | _ => None
  end.

Definition closed_conn (e : Event) : option PacketConn :=
  match e with
  | Ev (Conn_Close conn) _ => Some conn
  | _ => None
  end.

Definition created_mux (e : Event) : option PacketConn :=
  match e with
  | Ev (Call_NewUDPMuxDefault _ conn _) _ => Some conn
  | _ => None
  end.

Definition is_mux_call (e : Event) : bool :=
  match e with
  | Ev (Mux_GetConn _ _ _) _ | Ev (Mux_RemoveConnByUfrag _ _) _
  | Ev (Mux_Close _) _ | Ev (Mux_GetListenAddresses _) _ => true
  | _ => false
  end.

(** The answers of the delegates' [Close], in call order. *)
Definition close_answers (log : list Event) : list (option error) :=
  omap close_answer log.
(** The answers of [ListenUDP], in call order. *)
Definition listen_answers (log : list Event) : list (PacketConn + error) :=
  omap listen_answer log.
(** The addresses [ListenUDP] was asked to bind, in call order. *)
Definition listen_addrs (log : list Event) : list UDPAddr :=
  omap listen_addr log.
(** The sockets [ListenUDP] opened, in call order. *)
Definition opened (log : list Event) : list PacketConn :=
  omap (λ r, match r with inl conn => Some conn | inr _ => None end)
       (listen_answers log).
(** The connections [Close] was called on, in call order. *)
Definition closed_conns (log : list Event) : list PacketConn :=
  omap closed_conn log.
(** The connections a multiplexer was created for, in call order. *)
Definition created_muxes (log : list Event) : list PacketConn :=
  omap created_mux log.

(** The IPs [localInterfaces] resolved. *)
Definition resolved (e : Event) : list IP :=
  match e with
  | Ev c x =>
      match c in Call X return X → list IP with
      | Call_localInterfaces _ _ _ _ _ =>
          λ r, match r with inl ips => ips | inr _ => [] end
      | _ => λ _, []
      end x
  end.
Definition resolved_ips (log : list Event) : list IP := log ≫= resolved.

(** An event that is neither a socket being opened or closed, nor a
    multiplexer being created, nor the resolution of the local IPs. *)
Definition silent (e : Event) : Prop :=
  listen_answer e = None ∧ listen_addr e = None ∧
  closed_conn e = None ∧ created_mux e = None ∧ resolved e = [].

(** The addresses lines 136-138 go through: every port for the first IP,
    then every port for the second, and so on. *)
Definition listen_targets (ips : list IP) (ports : list Z) : list UDPAddr :=
  ip ← ips; port ← ports; [{| udp_IP := ip; udp_Port := port; udp_Zone := "" |}].

(** The listen addresses a delegate reported, each with its reporter. *)
Definition reported (e : Event) : list (UDPMux * Addr) :=
  match e with
  | Ev c x =>
      match c in Call X return X → list (UDPMux * Addr) with
      | Mux_GetListenAddresses mux => λ addrs, (mux,.) <$> addrs
      | _ => λ _, []
      end x
  end.
(** All the reported listen addresses, in the order they were seen. *)
Definition reports (log : list Event) : list (UDPMux * Addr) :=
  log ≫= reported.

(** *** More of what a log shows *)

Definition net_answer (e : Event) : option (Net + error) :=
  match e with
  | Ev c x =>
      match c in Call X return X → option (Net + error) with
      | Stdnet_NewNet => λ r, Some r
      | _ => λ _, None
      end x
  end.

Definition resolution_answer (e : Event) : option (list IP + error) :=
  match e with
  | Ev c x =>
      match c in Call X return X → option (list IP + error) with
      | Call_localInterfaces _ _ _ _ _ => λ r, Some r
      | _ => λ _, None
      end x
  end.

(** The network a call goes through or hands on. *)
Definition net_of (e : Event) : option (option Net) :=
  match e with
  | Ev (Call_localInterfaces n _ _ _ _) _ => Some (Some n)
  | Ev (Net_ListenUDP n _ _) _ => Some (Some n)
  | Ev (Call_NewUDPMuxDefault _ _ n) _ => Some n
  | _ => None
  end.

Definition read_buffer_call (e : Event) : option (PacketConn * Z) :=
  match e with
  | Ev (Conn_SetReadBuffer conn bytes) _ => Some (conn, bytes)
  | _ => None
  end.

Definition write_buffer_call (e : Event) : option (PacketConn * Z) :=
  match e with
  | Ev (Conn_SetWriteBuffer conn bytes) _ => Some (conn, bytes)
  | _ => None
  end.

Definition new_mux (e : Event) : option UDPMux :=
  match e with
  | Ev c x =>
      match c in Call X return X → option UDPMux with
      | Call_NewUDPMuxDefault _ _ _ => λ mux, Some mux
      | _ => λ _, None
      end x
  end.

(** The logger a multiplexer is created with. *)
Definition logger_of (e : Event) : option (option Logger) :=
  match e with
  | Ev (Call_NewUDPMuxDefault lg _ _) _ => Some lg
  | _ => None
  end.

(** The answers of [stdnet.NewNet], in call order. *)
Definition net_answers (log : list Event) : list (Net + error) :=
  omap net_answer log.
(** The answers of [localInterfaces], in call order. *)
Definition resolution_answers (log : list Event) : list (list IP + error) :=
  omap resolution_answer log.
(** The networks the calls went through, in call order. *)
Definition nets_used (log : list Event) : list (option Net) :=
  omap net_of log.
(** The [SetReadBuffer] and [SetWriteBuffer] calls, in call order. *)
Definition read_buffer_calls (log : list Event) : list (PacketConn * Z) :=
  omap read_buffer_call log.
Definition write_buffer_calls (log : list Event) : list (PacketConn * Z) :=
  omap write_buffer_call log.
(** The multiplexers [NewUDPMuxDefault] returned, in call order. *)
Definition new_muxes (log : list Event) : list UDPMux :=
  omap new_mux log.
(** The loggers the multiplexers were created with, in call order. *)
Definition loggers_used (log : list Event) : list (option Logger) :=
  omap logger_of log.

(** An event that concerns neither the network, nor a buffer, nor the
    creation of a multiplexer. *)
Definition aside (e : Event) : Prop :=
  net_answer e = None ∧ resolution_answer e = None ∧ net_of e = None ∧
  read_buffer_call e = None ∧ write_buffer_call e = None ∧ new_mux e = None ∧
  logger_of e = None.


(** The errors among a list of answers. *)
Definition errors_in {A} (answers : list (A + error)) : list error :=
  omap (λ a, match a with inl _ => None | inr e => Some e end) answers.


(** ** The aggregation facade *)

(** [MultiUDPMuxDefault] (lines 21-29) *)
Record MultiUDPMuxDefault : Type := mkMulti {
  muxes : list UDPMux;
  localAddrToMux : gmap string UDPMux;
  multiPortsAddresses : list multiPortsAddress;
}.

Section facade.

(** Go's standard library: the [String] methods of [net.IP] and of
    [net.UDPAddr]. *)
Variable IP_String : IP → string.
Variable UDPAddr_String : UDPAddr → string.

(** The order in which [range] visits a Go map is not specified: any
    enumeration of the entries. *)
Variable range_ipToAddrs :
  gmap string multiPortsAddress → list (string * multiPortsAddress).
Hypothesis range_ipToAddrs_perm :
  ∀ m, range_ipToAddrs m ≡ₚ map_to_list m.

(** [addr.String()] *)
Definition Addr_String (addr : Addr) : string :=
  match addr with
  | AddrUDP u => UDPAddr_String u
  | AddrOther _ text => text
  end.

(** Lines 47-56, the body of the inner loop of the constructor; [None] is
    the panic of the type assertion to [*net.UDPAddr] of line 49. *)
Definition register_addr (mux : UDPMux)
    (st : gmap string UDPMux * gmap string multiPortsAddress) (addr : Addr) :
    option (gmap string UDPMux * gmap string multiPortsAddress) :=
  let '(addrToMux, ipToAddrs) := st in
  let addrToMux := <[Addr_String addr := mux]> addrToMux in
  match addr with
  | AddrUDP u =>
      let ip := IP_String (udp_IP u) in
      match ipToAddrs !! ip with
      | Some mpa =>
          Some (addrToMux,
                <[ip := {| addresses := addresses mpa ++ [addr];
                           nextPos := nextPos mpa |}]> ipToAddrs)
      | None => Some (addrToMux, <[ip := fresh_group [addr]]> ipToAddrs)
      end
  | AddrOther _ _ => None
  end.

(** Lines 46-57, the inner loop. *)
Fixpoint register_addrs (mux : UDPMux) (addrs : list Addr)
    (st : gmap string UDPMux * gmap string multiPortsAddress) :
    option (gmap string UDPMux * gmap string multiPortsAddress) :=
  match addrs with
  | [] => Some st
  | addr :: rest =>
      match register_addr mux st addr with
      | Some st' => register_addrs mux rest st'
      | None => None
      end
  end.

(** Lines 45-58, the outer loop. *)
Fixpoint register_muxes (ms : list UDPMux)
    (st : gmap string UDPMux * gmap string multiPortsAddress) :
    Prog (gmap string UDPMux * gmap string multiPortsAddress) :=
  match ms with
  | [] => Ret st
  | mux :: rest =>
      addrs ← call (Mux_GetListenAddresses mux);
      match register_addrs mux addrs st with
      | Some st' => register_muxes rest st'
      | None => Panic
      end
  end.

(** [NewMultiUDPMuxDefault] (lines 42-69) *)
Definition NewMultiUDPMuxDefault (ms : list UDPMux) : Prog MultiUDPMuxDefault :=
  '(addrToMux, ipToAddrs) ← register_muxes ms (∅, ∅);
  Ret {| muxes := ms;
         localAddrToMux := addrToMux;
         multiPortsAddresses := (range_ipToAddrs ipToAddrs).*2 |}.

(** [GetConn] (lines 73-79) *)
Definition GetConn (m : MultiUDPMuxDefault) (ufrag : string) (addr : Addr) :
    Prog (option PacketConn * option error) :=
  match localAddrToMux m !! Addr_String addr with
  | None => Ret (None, Some errNoUDPMuxAvailable)
  | Some mux => call (Mux_GetConn mux ufrag addr)
  end.

(** [RemoveConnByUfrag] (lines 83-87) *)
Fixpoint remove_loop (ms : list UDPMux) (ufrag : string) : Prog unit :=
  match ms with
  | [] => Ret ()
  | mux :: rest => _ ← call (Mux_RemoveConnByUfrag mux ufrag); remove_loop rest ufrag
  end.

Definition RemoveConnByUfrag (m : MultiUDPMuxDefault) (ufrag : string) : Prog unit :=
  remove_loop (muxes m) ufrag.

(** [Close] (lines 90-98): the loop carries [err]. *)
Fixpoint close_loop (ms : list UDPMux) (err : option error) : Prog (option error) :=
  match ms with
  | [] => Ret err
  | mux :: rest =>
      e ← call (Mux_Close mux);
      close_loop rest (match e with Some _ => e | None => err end)
  end.

Definition Close (m : MultiUDPMuxDefault) : Prog (option error) :=
  close_loop (muxes m) None.

(** [GetListenAddresses] (lines 101-107).  It calls no collaborator but
    advances the cursors; after a panic of [next] the groups not yet
    visited are as they were. *)
Fixpoint collect_next (mpas : list multiPortsAddress) (addrs : list Addr) :
    option (list Addr) * list multiPortsAddress :=
  match mpas with
  | [] => (Some addrs, [])
  | mpa :: rest =>
      let '(r, mpa') := next mpa in
      match r with
      | None => (None, mpa' :: rest)
      | Some a =>
          let '(res, rest') := collect_next rest (addrs ++ [a]) in
          (res, mpa' :: rest')
      end
  end.

Definition GetListenAddresses (m : MultiUDPMuxDefault) :
    option (list Addr) * MultiUDPMuxDefault :=
  let '(res, mpas) := collect_next (multiPortsAddresses m) [] in
  (res, {| muxes := muxes m;
           localAddrToMux := localAddrToMux m;
           multiPortsAddresses := mpas |}).

(** The aggregate as [k] sequential calls of [GetListenAddresses] leave
    it. *)
Definition after_listings (k : N) (m : MultiUDPMuxDefault) : MultiUDPMuxDefault :=
  N.iter k (λ m, (GetListenAddresses m).2) m.

(** The aggregate of no multiplexer. *)
Definition empty_aggregate : MultiUDPMuxDefault :=
  {| muxes := []; localAddrToMux := ∅; multiPortsAddresses := [] |}.

(** The IP string a listen address is grouped under, if it is a UDP
    address. *)
Definition Addr_ip (addr : Addr) : option string :=
  match addr with
  | AddrUDP u => Some (IP_String (udp_IP u))
  | AddrOther _ _ => None
  end.

(** The two loops of the constructor as one pass over the reported
    addresses. *)
Fixpoint register_all (l : list (UDPMux * Addr))
    (st : gmap string UDPMux * gmap string multiPortsAddress) :
    option (gmap string UDPMux * gmap string multiPortsAddress) :=
  match l with
  | [] => Some st
  | (mux, addr) :: rest =>
      match register_addr mux st addr with
      | Some st' => register_all rest st'
      | None => None
      end
  end.

(** The addresses of a list that are grouped under [ip]. *)
Definition with_ip (ip : string) (addrs : list Addr) : list Addr :=
  filter (λ a, Addr_ip a = Some ip) addrs.


(** A group one call of [next] later, when the cursor does not wrap. *)
Definition advance (g : multiPortsAddress) : multiPortsAddress :=
  {| addresses := addresses g; nextPos := nextPos g + 1 |}.

(** A group on which the next call of [next] stays short of the overflow
    of the cursor. *)
Definition before_overflow (g : multiPortsAddress) : Prop :=
  fits_int32 g ∧ 0 ≤ nextPos g < max_int.

(** A group [k] calls of [next] later, when the cursor does not wrap. *)
Definition shifted (k : N) (g : multiPortsAddress) : multiPortsAddress :=
  {| addresses := addresses g; nextPos := nextPos g + Z.of_N k |}.

(** A group that [k] more calls of [next] leave short of the overflow of
    the cursor. *)
Definition overflow_free (k : N) (g : multiPortsAddress) : Prop :=
  fits_int32 g ∧ 0 ≤ nextPos g ∧ nextPos g + Z.of_N k < max_int.


(** ** The socket factory *)

(** The options (lines 180-285): an option is what its [apply] does to the
    parameters. *)
Definition UDPMuxFromPortOption : Type :=
  multiUDPMuxFromPortParam → multiUDPMuxFromPortParam.

Definition UDPMuxFromPortWithReadBufferSize (size : Z) : UDPMuxFromPortOption :=
  λ p, mkParam (ifFilter p) (ipFilter p) (networks p) size
         (writeBufferSize p) (logger p) (includeLoopback p) (net p)
         (batchWriteSize p) (batchWriteInterval p).
Definition UDPMuxFromPortWithLogger (lg : option Logger) : UDPMuxFromPortOption :=
  λ p, mkParam (ifFilter p) (ipFilter p) (networks p) (readBufferSize p)
         (writeBufferSize p) lg (includeLoopback p) (net p)
         (batchWriteSize p) (batchWriteInterval p).
Definition UDPMuxFromPortWithNet (n : option Net) : UDPMuxFromPortOption :=
  λ p, mkParam (ifFilter p) (ipFilter p) (networks p) (readBufferSize p)
         (writeBufferSize p) (logger p) (includeLoopback p) n
         (batchWriteSize p) (batchWriteInterval p).
Definition UDPMuxFromPortWithBatchWrite (size interval : Z) : UDPMuxFromPortOption :=
  λ p, mkParam (ifFilter p) (ipFilter p) (networks p) (readBufferSize p)
         (writeBufferSize p) (logger p) (includeLoopback p) (net p)
         size interval.

(** Lines 116-118: the parameters before any option is applied. *)
Definition default_param : multiUDPMuxFromPortParam :=
  mkParam None None [NetworkTypeUDP4; NetworkTypeUDP6] 0 0 None false None 0 0.





(** Lines 149-153: what is appended to [conns] for an opened socket.
    [tudp.NewBatchConn] is declared outside this file and is taken as a
    constructor that hands back the wrapper; what it does beyond that, and
    whether it returns at all for a size no slice can have, is not
    described here. *)
Definition wrap_conn (p : multiUDPMuxFromPortParam) (conn : PacketConn) : PacketConn :=
  if bool_decide (0 < batchWriteSize p)
  then BatchConn conn (batchWriteSize p) (batchWriteInterval p)
  else conn.

(** Lines 143-148: the buffer sizes, whose errors are dropped. *)
Definition tune_conn (p : multiUDPMuxFromPortParam) (conn : PacketConn) : Prog unit :=
  _ ← (if bool_decide (0 < readBufferSize p)
       then _ ← call (Conn_SetReadBuffer conn (readBufferSize p)); Ret ()
       else Ret ());
  if bool_decide (0 < writeBufferSize p)
  then _ ← call (Conn_SetWriteBuffer conn (writeBufferSize p)); Ret ()
  else Ret ().

(** Lines 137-154, the loop over the ports of one IP.  It hands back
    [conns] and [err]; [Some] error is the [break] of line 141. *)
Fixpoint ports_loop (p : multiUDPMuxFromPortParam) (n : Net) (ip : IP)
    (ports : list Z) (conns : list PacketConn) :
    Prog (list PacketConn * option error) :=
  match ports with
  | [] => Ret (conns, None)
  | port :: rest =>
      r ← call (Net_ListenUDP n "udp" {| udp_IP := ip; udp_Port := port; udp_Zone := "" |});
      match r with
      | inr listenErr => Ret (conns, Some listenErr)
      | inl conn =>
          _ ← tune_conn p conn;
          ports_loop p n ip rest (conns ++ [wrap_conn p conn])
      end
  end.

(** Lines 136-158, the loop over the IPs, left at line 156 once [err] is
    set. *)
Fixpoint ips_loop (p : multiUDPMuxFromPortParam) (n : Net) (ips : list IP)
    (ports : list Z) (conns : list PacketConn) :
    Prog (list PacketConn * option error) :=
  match ips with
  | [] => Ret (conns, None)
  | ip :: rest =>
      '(conns', err) ← ports_loop p n ip ports conns;
      match err with
      | Some _ => Ret (conns', err)
      | None => ips_loop p n rest ports conns'
      end
  end.

(** Lines 161-163 *)
Fixpoint close_conns (conns : list PacketConn) : Prog unit :=
  match conns with
  | [] => Ret ()
  | conn :: rest => _ ← call (Conn_Close conn); close_conns rest
  end.

(** Lines 167-175 *)
Fixpoint make_muxes (p : multiUDPMuxFromPortParam) (conns : list PacketConn)
    (ms : list UDPMux) : Prog (list UDPMux) :=
  match conns with
  | [] => Ret ms
  | conn :: rest =>
      mux ← call (Call_NewUDPMuxDefault (logger p) conn (net p));
      make_muxes p rest (ms ++ [mux])
  end.

(** Lines 135-177, with the parameters and the resolved IPs at hand. *)
Definition open_and_aggregate (p : multiUDPMuxFromPortParam) (n : Net)
    (ips : list IP) (ports : list Z) :
    Prog (option MultiUDPMuxDefault * option error) :=
  '(conns, err) ← ips_loop p n ips ports [];
  match err with
  | Some e => _ ← close_conns conns; Ret (None, Some e)
  | None =>
      ms ← make_muxes p conns [];
      m ← NewMultiUDPMuxDefault ms;
      Ret (Some m, None)
  end.

(** [NewMultiUDPMuxFromPorts] (lines 115-178) *)
Definition NewMultiUDPMuxFromPorts (ports : list Z) (opts : list UDPMuxFromPortOption) :
    Prog (option MultiUDPMuxDefault * option error) :=
  let params := foldl (λ p opt, opt p) default_param opts in
  r ← match net params with
      | Some n => Ret (inl n)
      | None => call Stdnet_NewNet
      end;
  match r with
  | inr err => Ret (None, Some (ErrWrap "failed to get create network" err))
  | inl n =>
      let params := UDPMuxFromPortWithNet (Some n) params in
      ips ← call (Call_localInterfaces n (ifFilter params) (ipFilter params)
                    (networks params) (includeLoopback params));
      match ips with
      | inr err => Ret (None, Some err)
      | inl ips => open_and_aggregate params n ips ports
      end
  end.

(** [NewMultiUDPMuxFromPort] (lines 111-113) *)
Definition NewMultiUDPMuxFromPort (port : Z) (opts : list UDPMuxFromPortOption) :
    Prog (option MultiUDPMuxDefault * option error) :=
  NewMultiUDPMuxFromPorts [port] opts.


(** * Properties *)

(** ** Machine integers *)

Lemma wrap32_in_range z : in_range (wrap32 z).
Proof.
  unfold in_range, wrap32, min_int, max_int.
  pose proof (Z.mod_pos_bound (z + 2 ^ 31) (2 ^ 32)). lia.
Qed.

Lemma wrap32_id z : in_range z → wrap32 z = z.
Proof.
  unfold in_range, wrap32, min_int, max_int. intros Hz.
  rewrite Z.mod_small; lia.
Qed.

Lemma wrap32_max_succ : wrap32 (max_int + 1) = min_int.
Proof. reflexivity. Qed.

(** Adding one [k] times, wrapping each time, is one wrap of the sum. *)
Lemma wrap32_add_wrap z k : wrap32 (wrap32 z + k) = wrap32 (z + k).
Proof.
  unfold wrap32.
  replace ((z + 2 ^ 31) `mod` 2 ^ 32 - 2 ^ 31 + k + 2 ^ 31)
    with ((z + 2 ^ 31) `mod` 2 ^ 32 + k) by lia.
  replace (z + k + 2 ^ 31) with ((z + 2 ^ 31) + k) by lia.
  by rewrite Zplus_mod_idemp_l.
Qed.


(** ** The address balancer *)

Lemma next_addresses g : addresses (next g).2 = addresses g.
Proof. unfold next; simpl. by case_bool_decide. Qed.

Lemma next_nextPos g : nextPos (next g).2 = wrap32 (nextPos g + 1).
Proof. unfold next; simpl. by case_bool_decide. Qed.

Lemma after_calls_succ k g :
  after_calls (N.succ k) g = (next (after_calls k g)).2.
Proof. unfold after_calls. by rewrite N.iter_succ. Qed.

Lemma after_calls_addresses k g : addresses (after_calls k g) = addresses g.
Proof.
  induction k as [|k IH] using N.peano_ind; [done|].
  by rewrite after_calls_succ, next_addresses.
Qed.

(** The cursor counts the calls modulo 2^32. *)
Lemma after_calls_nextPos k g :
  in_range (nextPos g) →
  nextPos (after_calls k g) = wrap32 (nextPos g + Z.of_N k).
Proof.
  intros Hg. induction k as [|k IH] using N.peano_ind.
  - unfold after_calls; simpl. rewrite Z.add_0_r. by rewrite wrap32_id.
  - rewrite after_calls_succ, next_nextPos, IH, wrap32_add_wrap.
    f_equal. lia.
Qed.

(** While the cursor is non-negative, [next] reads the element at the
    cursor modulo the group size. *)
Lemma next_in_range g :
  fits_int32 g → 0 ≤ nextPos g < max_int →
  (next g).1 =
    addresses g !! (Z.to_nat ((nextPos g + 1) `mod` Z.of_nat (length (addresses g)))).
Proof.
  unfold fits_int32, max_int. intros Hn Hc.
  unfold next, nextPos_Add; simpl.
  rewrite !wrap32_id by (unfold in_range, min_int, max_int; lia).
  rewrite bool_decide_false by lia. simpl.
  rewrite Z.rem_mod_nonneg by lia.
  unfold index_int32. rewrite bool_decide_false; [done|].
  pose proof (Z.mod_pos_bound (nextPos g + 1) (Z.of_nat (length (addresses g)))).
  lia.
Qed.

Lemma next_in_range_is_Some g :
  fits_int32 g → 0 ≤ nextPos g < max_int → is_Some (next g).1.
Proof.
  intros Hn Hc. rewrite next_in_range by done.
  apply lookup_lt_is_Some.
  unfold fits_int32 in Hn.
  pose proof (Z.mod_pos_bound (nextPos g + 1) (Z.of_nat (length (addresses g)))).
  lia.
Qed.

(** Sequential calls before the cursor overflows: call number [j] reads
    the element at [(cursor + 1 + j) mod size]. *)
Lemma next_n_in_range n g :
  fits_int32 g → 0 ≤ nextPos g → nextPos g + Z.of_nat n ≤ max_int →
  next_n n g =
    (λ j, addresses g !!
            rotate_nat_add (Z.to_nat (nextPos g + 1)) j (length (addresses g)))
      <$> seq 0 n.
Proof.
  revert g. induction n as [|n IH]; intros g Hn Hc Hk; [done|].
  cbn [next_n seq fmap list_fmap].
  destruct (next g) as [r g'] eqn:Hnext.
  assert (Hr : r = (next g).1) by (by rewrite Hnext).
  assert (Hg' : g' = (next g).2) by (by rewrite Hnext).
  destruct (next_in_range_is_Some g) as [a Ha]; [done|lia|].
  rewrite next_in_range in Hr, Ha by (done || lia).
  assert (Hidx : rotate_nat_add (Z.to_nat (nextPos g + 1)) 0 (length (addresses g))
                 = Z.to_nat ((nextPos g + 1) `mod` Z.of_nat (length (addresses g)))).
  { unfold rotate_nat_add. f_equal. f_equal. lia. }
  rewrite Hidx, <- Hr. rewrite Hr, Ha. f_equal.
  assert (Hpos : nextPos g' = nextPos g + 1).
  { rewrite Hg', next_nextPos. apply wrap32_id.
    unfold in_range, min_int, max_int in *. lia. }
  assert (Haddr : addresses g' = addresses g) by (by rewrite Hg', next_addresses).
  rewrite IH; [|by unfold fits_int32; rewrite Haddr|lia|lia].
  rewrite <- fmap_S_seq, <- list_fmap_compose.
  apply list_fmap_ext. intros _ j _. simpl. rewrite Haddr, Hpos.
  f_equal. unfold rotate_nat_add. f_equal. f_equal. lia.
Qed.

(** One full cycle before the cursor overflows is the group's list,
    rotated to start at the element after the cursor. *)
Lemma next_n_full_cycle g :
  fits_int32 g → 0 ≤ nextPos g →
  nextPos g + Z.of_nat (length (addresses g)) ≤ max_int →
  next_n (length (addresses g)) g =
    Some <$> rotate (Z.to_nat (nextPos g + 1)) (addresses g).
Proof.
  intros Hn Hc Hk. rewrite next_n_in_range by done.
  apply list_eq. intros i. rewrite !list_lookup_fmap.
  destruct (decide (i < length (addresses g))%nat) as [Hi|Hi].
  - rewrite lookup_seq_lt by done. simpl.
    rewrite lookup_rotate_r by done.
    destruct (lookup_lt_is_Some_2 (addresses g)
                (rotate_nat_add (Z.to_nat (nextPos g + 1)) i (length (addresses g))))
      as [x Hx].
    { apply rotate_nat_add_lt. lia. }
    by rewrite Hx.
  - rewrite lookup_seq_ge by lia. simpl.
    rewrite lookup_ge_None_2; [done|]. rewrite length_rotate. lia.
Qed.

Lemma rotate_Permutation {A} k (l : list A) : rotate k l ≡ₚ l.
Proof.
  unfold rotate. rewrite Permutation_app_comm. by rewrite take_drop.
Qed.


Lemma after_calls_fresh k addrs :
  after_calls k (fresh_group addrs) =
    {| addresses := addrs; nextPos := wrap32 (Z.of_N k) |}.
Proof.
  pose proof (after_calls_addresses k (fresh_group addrs)) as Ha.
  pose proof (after_calls_nextPos k (fresh_group addrs)) as Hp.
  destruct (after_calls k (fresh_group addrs)) as [l c]. simpl in *.
  rewrite Ha, Hp; [done|]. by vm_compute.
Qed.

(** *** The cursor at the end of the [int32] range *)

(** Up to 2^31 - 2 earlier calls, a call of [next] on a fresh group returns
    a member. *)
Lemma next_ok_before_overflow (k : N) addrs :
  0 < Z.of_nat (length addrs) ≤ max_int → Z.of_N k < max_int →
  is_Some (next (after_calls k (fresh_group addrs))).1.
Proof.
  intros Hlen Hk. rewrite after_calls_fresh.
  apply next_in_range_is_Some; [done|]. cbn [nextPos].
  rewrite wrap32_id; unfold in_range, min_int, max_int in *; lia.
Qed.

(** 2^31 - 1 calls after its construction, the cursor of a group is at the
    largest [int32]. *)
Lemma after_calls_max_int addrs :
  after_calls (2 ^ 31 - 1) (fresh_group addrs) =
    {| addresses := addrs; nextPos := max_int |}.
Proof. rewrite after_calls_fresh. f_equal. Qed.

(** C2, at its failing input.  A group of three addresses, 2^31 - 1 calls
    after its construction: the cursor is at the largest [int32]; the next
    call wraps it to the smallest, whose remainder by 3 is -2, and the
    indexing panics. *)
Theorem next_panics_after_cursor_overflow (a b c : Addr) :
  after_calls (2 ^ 31 - 1) (fresh_group [a; b; c]) =
    {| addresses := [a; b; c]; nextPos := max_int |} ∧
  Z.rem (wrap32 (max_int + 1)) 3 = -2 ∧
  next (after_calls (2 ^ 31 - 1) (fresh_group [a; b; c])) =
    (None, {| addresses := [a; b; c]; nextPos := min_int |}).
Proof.
  rewrite after_calls_max_int. split_and!; [reflexivity|by vm_compute..].
Qed.

(** C3, at its failing input.  A group of two addresses, 2^31 - 1 calls
    after its construction: of the next two consecutive calls the first
    returns the address at index 0 and the second panics (the remainder of
    -2^31 + 1 by 2 is -1), so the two calls do not return each member
    once. *)
Theorem two_calls_across_cursor_overflow (a b : Addr) :
  next_n 2 (after_calls (2 ^ 31 - 1) (fresh_group [a; b])) = [Some a; None].
Proof.
  rewrite after_calls_max_int. by vm_compute.
Qed.

(** Once the cursor is negative no group of two or more is safe: at -2 the
    call reads index -1, whatever the size. *)
Lemma next_panics_at_negative_cursor g :
  fits_int32 g → (2 ≤ length (addresses g))%nat → nextPos g = -2 →
  (next g).1 = None.
Proof.
  unfold fits_int32, max_int. intros Hfit Hlen Hc.
  unfold next, nextPos_Add. rewrite Hc. cbn [fst].
  rewrite (wrap32_id (Z.of_nat _)) by (unfold in_range, min_int, max_int; lia).
  rewrite bool_decide_false by lia. cbn [fst].
  change (wrap32 (-2 + 1)) with (-1).
  replace (Z.rem (-1) (Z.of_nat (length (addresses g)))) with (-1); [done|].
  symmetry. apply Z.rem_small_iff; lia.
Qed.

(** A group of one address returns it on every call, whatever the
    cursor. *)
Lemma next_singleton a c : (next {| addresses := [a]; nextPos := c |}).1 = Some a.
Proof.
  unfold next, nextPos_Add. cbn [addresses nextPos length fst].
  change (wrap32 (Z.of_nat 1)) with 1. rewrite bool_decide_false by done.
  cbn [fst]. by rewrite Z.rem_1_r.
Qed.


(** ** Running programs *)

Lemma run_bind {W A B} (h : Handler W) (p : Prog A) (k : A → Prog B) w :
  run h (bind p k) w =
    match run h p w with
    | (Some a, w1, l1) =>
        let '(r, w2, l2) := run h (k a) w1 in (r, w2, l1 ++ l2)
    | (None, w1, l1) => (None, w1, l1)
    end.
Proof.
  revert w. induction p as [a| |X c k' IH]; intros w; simpl.
  - by destruct (run h (k a) w) as [[r w2] l2].
  - done.
  - destruct (h X c w) as [x w1]. rewrite IH.
    destruct (run h (k' x) w1) as [[[a|] w2] l1]; [|done].
    by destruct (run h (k a) w2) as [[r w3] l2].
Qed.

Lemma run_call {W X} (h : Handler W) (c : Call X) w :
  run h (call c) w = (Some (h X c w).1, (h X c w).2, [Ev c (h X c w).1]).
Proof. simpl. by destruct (h X c w). Qed.

(** ** The facade: [GetConn], [RemoveConnByUfrag], [Close] *)

(** C1. [GetConn] looks the address's string form up in the Address Index.
    Absent: the result is [errNoUDPMuxAvailable] and the log is empty, no
    delegate has been called.  Present: the only call made is the owning
    multiplexer's [GetConn] with the same arguments, and the result is that
    call's answer, whatever it is. *)
Theorem GetConn_by_address_index {W} (h : Handler W) w m ufrag addr :
  run h (GetConn m ufrag addr) w =
    match localAddrToMux m !! Addr_String addr with
    | None => (Some (None, Some errNoUDPMuxAvailable), w, [])
    | Some mux =>
        let '(answer, w') := h _ (Mux_GetConn mux ufrag addr) w in
        (Some answer, w', [Ev (Mux_GetConn mux ufrag addr) answer])
    end.
Proof.
  unfold GetConn. destruct (localAddrToMux m !! Addr_String addr) as [mux|]; [|done].
  rewrite run_call. by destruct (h _ (Mux_GetConn mux ufrag addr) w).
Qed.

Lemma run_remove_loop {W} (h : Handler W) ms ufrag w :
  (run h (remove_loop ms ufrag) w).1.1 = Some () ∧
  call_of <$> (run h (remove_loop ms ufrag) w).2 =
    (λ mux, Was (Mux_RemoveConnByUfrag mux ufrag)) <$> ms.
Proof.
  revert w. induction ms as [|mux ms IH]; intros w; [done|].
  cbn [remove_loop]. unfold mbind, Prog_bind. rewrite run_bind, run_call.
  destruct (IH (h _ (Mux_RemoveConnByUfrag mux ufrag) w).2) as [IH1 IH2].
  destruct (run h (remove_loop ms ufrag) _) as [[r w2] l2].
  cbn [fst snd app] in *. split; [done|]. by rewrite fmap_cons, IH2.
Qed.

(** C8. [RemoveConnByUfrag] calls [RemoveConnByUfrag] with the same
    credential on every constituent multiplexer, once each and in the
    order of the list, whatever the delegates hold or answer, makes no
    other call and returns nothing. *)
Theorem RemoveConnByUfrag_calls_every_mux_once {W} (h : Handler W) w m ufrag :
  (run h (RemoveConnByUfrag m ufrag) w).1.1 = Some () ∧
  call_of <$> (run h (RemoveConnByUfrag m ufrag) w).2 =
    (λ mux, Was (Mux_RemoveConnByUfrag mux ufrag)) <$> muxes m.
Proof. apply run_remove_loop. Qed.

(** The error [Close]'s loop ends with: the last error among the answers,
    or the one it started with. *)
Lemma run_close_loop {W} (h : Handler W) ms err w :
  (run h (close_loop ms err) w).1.1 =
    Some (default err (Some <$> last (omap id (close_answers (run h (close_loop ms err) w).2)))) ∧
  call_of <$> (run h (close_loop ms err) w).2 = (λ mux, Was (Mux_Close mux)) <$> ms ∧
  length (close_answers (run h (close_loop ms err) w).2) = length ms.
Proof.
  revert err w. induction ms as [|mux ms IH]; intros err w; [done|].
  cbn [close_loop]. unfold mbind, Prog_bind. rewrite run_bind, run_call.
  set (e := (h _ (Mux_Close mux) w).1). set (w1 := (h _ (Mux_Close mux) w).2).
  destruct (IH (match e with Some _ => e | None => err end) w1) as (IH1 & IH2 & IH3).
  destruct (run h (close_loop ms _) w1) as [[r w2] l2].
  cbn [fst snd app] in *.
  assert (Hhd : close_answers (Ev (Mux_Close mux) e :: l2) = e :: close_answers l2)
    by done.
  rewrite Hhd. split_and!; [|by rewrite fmap_cons, IH2|by rewrite length_cons, IH3].
  rewrite IH1. f_equal.
  destruct e as [e|]; cbn [omap list_omap id]; [|done].
  destruct (omap id (close_answers l2)) as [|e' l'] eqn:Hl; [done|].
  rewrite last_cons_cons.
  destruct (last (e' :: l')) as [e''|] eqn:Hlast; [done|].
  by apply last_None in Hlast.
Qed.

(** C5. [Close] calls [Close] on every constituent multiplexer, once each
    and in the order of the list, whatever the earlier ones answered, and
    makes no other call; it returns the last error among the answers, nil
    when no delegate failed. *)
Theorem Close_attempts_all_returns_last_error {W} (h : Handler W) w m :
  call_of <$> (run h (Close m) w).2 = (λ mux, Was (Mux_Close mux)) <$> muxes m ∧
  length (close_answers (run h (Close m) w).2) = length (muxes m) ∧
  (run h (Close m) w).1.1 =
    Some (last (omap id (close_answers (run h (Close m) w).2))).
Proof.
  unfold Close.
  destruct (run_close_loop h (muxes m) None w) as (H1 & H2 & H3).
  split_and!; [done..|]. rewrite H1. f_equal.
  by destruct (last _).
Qed.

Lemma range_ipToAddrs_empty : range_ipToAddrs ∅ = [].
Proof.
  apply Permutation_nil_r. rewrite range_ipToAddrs_perm.
  by rewrite map_to_list_empty.
Qed.

(** ** The constructor *)

Lemma register_addrs_all mux addrs st :
  register_addrs mux addrs st = register_all ((mux,.) <$> addrs) st.
Proof.
  revert st. induction addrs as [|a addrs IH]; intros st; [done|].
  cbn [register_addrs fmap list_fmap register_all].
  destruct (register_addr mux st a); [apply IH|done].
Qed.

Lemma register_all_app l1 l2 st :
  register_all (l1 ++ l2) st =
    match register_all l1 st with
    | Some st' => register_all l2 st'
    | None => None
    end.
Proof.
  revert st. induction l1 as [|[mux a] l1 IH]; intros st; [done|].
  cbn [app register_all]. destruct (register_addr mux st a); [apply IH|done].
Qed.

(** The constructor asks the multiplexers for their addresses in the
    order supplied, and its two maps are those of one pass over what they
    reported. *)
Lemma run_register_muxes {W} (h : Handler W) ms st w :
  (run h (register_muxes ms st) w).1.1 =
    register_all (reports (run h (register_muxes ms st) w).2) st ∧
  (is_Some (run h (register_muxes ms st) w).1.1 →
   call_of <$> (run h (register_muxes ms st) w).2 =
     (λ mux, Was (Mux_GetListenAddresses mux)) <$> ms).
Proof.
  revert st w. induction ms as [|mux ms IH]; intros st w; [done|].
  cbn [register_muxes]. unfold mbind, Prog_bind. rewrite run_bind, run_call.
  set (addrs := (h _ (Mux_GetListenAddresses mux) w).1).
  set (w1 := (h _ (Mux_GetListenAddresses mux) w).2).
  assert (Hrep : ∀ l, reports (Ev (Mux_GetListenAddresses mux) addrs :: l)
                      = ((mux,.) <$> addrs) ++ reports l) by done.
  destruct (register_addrs mux addrs st) as [st'|] eqn:Hst.
  - destruct (IH st' w1) as [IH1 IH2].
    destruct (run h (register_muxes ms st') w1) as [[r w2] l2].
    cbn [fst snd app] in *. rewrite Hrep, register_all_app, <- register_addrs_all, Hst.
    split; [done|]. intros Hr. by rewrite fmap_cons, IH2.
  - cbn [run fst snd app]. rewrite Hrep, register_all_app, <- register_addrs_all, Hst.
    split; [done|]. by intros [? ?].
Qed.

Lemma register_addr_index mux idx grp a idx' grp' :
  register_addr mux (idx, grp) a = Some (idx', grp') →
  idx' = <[Addr_String a := mux]> idx.
Proof.
  unfold register_addr. destruct a as [u|]; [|done].
  destruct (grp !! IP_String (udp_IP u)); by intros [= <- <-].
Qed.

(** The Address Index after a pass: a string maps to the multiplexer of
    the last report that has it. *)
Lemma register_all_index l idx grp idx' grp' :
  register_all l (idx, grp) = Some (idx', grp') →
  ∀ s, idx' !! s =
         match last (filter (λ p, Addr_String p.2 = s) l) with
         | Some p => Some p.1
         | None => idx !! s
         end.
Proof.
  revert idx grp. induction l as [|[mux a] l IH]; intros idx grp Hreg s.
  { by injection Hreg as <- <-. }
  cbn [register_all] in Hreg.
  destruct (register_addr mux (idx, grp) a) as [[idx1 grp1]|] eqn:Hone; [|done].
  apply register_addr_index in Hone as ->.
  rewrite (IH _ _ Hreg s). rewrite filter_cons. cbn [snd].
  case_decide as Hs.
  - destruct (filter _ l) as [|p l'] eqn:Hf.
    + cbn [last fst]. by rewrite Hs, lookup_insert_eq.
    + rewrite last_cons_cons.
      destruct (last (p :: l')) eqn:Hlast; [done|]. by apply last_None in Hlast.
  - destruct (last _); [done|]. by rewrite lookup_insert_ne.
Qed.

(** The Address Groups after a pass: under each IP string, the addresses
    reported with it, in the order they were reported, appended to what the
    group held. *)
Lemma register_all_groups l idx grp idx' grp' :
  register_all l (idx, grp) = Some (idx', grp') →
  ∀ ip, grp' !! ip =
          match grp !! ip with
          | Some g => Some {| addresses := addresses g ++ with_ip ip l.*2;
                              nextPos := nextPos g |}
          | None =>
              match with_ip ip l.*2 with
              | [] => None
              | _ :: _ => Some (fresh_group (with_ip ip l.*2))
              end
          end.
Proof.
  revert idx grp. induction l as [|[mux a] l IH]; intros idx grp Hreg ip.
  { injection Hreg as <- <-. cbn. destruct (grp !! ip) as [[l c]|]; [|done].
    cbn. by rewrite app_nil_r. }
  cbn [register_all] in Hreg.
  destruct (register_addr mux (idx, grp) a) as [[idx1 grp1]|] eqn:Hone; [|done].
  rewrite (IH _ _ Hreg ip). clear IH Hreg.
  unfold register_addr in Hone. destruct a as [u|]; [|done].
  rewrite fmap_cons. unfold with_ip. rewrite filter_cons. cbn [snd Addr_ip].
  case_decide as Hip.
  - injection Hip as Hip. rewrite Hip in Hone.
    destruct (grp !! ip) as [g|]; injection Hone as <- <-;
      rewrite lookup_insert_eq; cbn [addresses nextPos fresh_group].
    + by rewrite <- app_assoc.
    + done.
  - assert (IP_String (udp_IP u) ≠ ip) by congruence.
    destruct (grp !! IP_String (udp_IP u)); injection Hone as <- <-;
      by rewrite lookup_insert_ne.
Qed.

(** What the constructor returns, when it returns. *)
Lemma run_NewMultiUDPMuxDefault {W} (h : Handler W) ms w m w' log :
  run h (NewMultiUDPMuxDefault ms) w = (Some m, w', log) →
  call_of <$> log = (λ mux, Was (Mux_GetListenAddresses mux)) <$> ms ∧
  ∃ grp, register_all (reports log) (∅, ∅) = Some (localAddrToMux m, grp) ∧
         muxes m = ms ∧
         multiPortsAddresses m = (range_ipToAddrs grp).*2.
Proof.
  unfold NewMultiUDPMuxDefault, mbind, Prog_bind. rewrite run_bind.
  destruct (run_register_muxes h ms (∅, ∅) w) as [H1 H2].
  destruct (run h (register_muxes ms (∅, ∅)) w) as [[[[idx grp]|] w1] l1];
    cbn [fst snd run] in *; [|done].
  intros [= <- <- <-]. rewrite app_nil_r. split; [by apply H2|].
  exists grp. by rewrite <- H1.
Qed.

(** C9, as amended.  The aggregate constructed with no argument exists
    (the constructor returns, calling nobody) and is the empty aggregate:
    its [GetListenAddresses] returns the empty list, its [Close] returns
    nil, its [RemoveConnByUfrag] does nothing, and its [GetConn] fails with
    [errNoUDPMuxAvailable] for every credential and address; none of them
    calls a collaborator.  When multiplexers are supplied and every one of
    them reports no address, the constructor returns as well, the Address
    Index and the groups are empty, [GetListenAddresses] returns the empty
    list and [GetConn] fails with [errNoUDPMuxAvailable] for every
    credential and address without calling anybody; but [Close] and
    [RemoveConnByUfrag] still call every supplied multiplexer, once each
    and in order, and [Close] returns the last error among the answers. *)
Theorem aggregate_without_addresses {W} (h : Handler W) w :
  (run h (NewMultiUDPMuxDefault []) w = (Some empty_aggregate, w, []) ∧
   GetListenAddresses empty_aggregate = (Some [], empty_aggregate) ∧
   run h (Close empty_aggregate) w = (Some None, w, []) ∧
   (∀ ufrag, run h (RemoveConnByUfrag empty_aggregate ufrag) w = (Some (), w, [])) ∧
   (∀ ufrag addr,
      run h (GetConn empty_aggregate ufrag addr) w =
        (Some (None, Some errNoUDPMuxAvailable), w, []))) ∧
  (∀ ms r w' log,
     run h (NewMultiUDPMuxDefault ms) w = (r, w', log) →
     reports log = [] →
     ∃ m,
       r = Some m ∧
       call_of <$> log = (λ mux, Was (Mux_GetListenAddresses mux)) <$> ms ∧
       muxes m = ms ∧ localAddrToMux m = ∅ ∧ multiPortsAddresses m = [] ∧
       GetListenAddresses m = (Some [], m) ∧
       (∀ w2 ufrag addr,
          run h (GetConn m ufrag addr) w2 =
            (Some (None, Some errNoUDPMuxAvailable), w2, [])) ∧
       (∀ w2,
          call_of <$> (run h (Close m) w2).2 = (λ mux, Was (Mux_Close mux)) <$> ms ∧
          (run h (Close m) w2).1.1 =
            Some (last (omap id (close_answers (run h (Close m) w2).2)))) ∧
       (∀ w2 ufrag,
          (run h (RemoveConnByUfrag m ufrag) w2).1.1 = Some () ∧
          call_of <$> (run h (RemoveConnByUfrag m ufrag) w2).2 =
            (λ mux, Was (Mux_RemoveConnByUfrag mux ufrag)) <$> ms)).
Proof.
  split.
  { split_and!; try done.
    unfold NewMultiUDPMuxDefault; simpl. by rewrite range_ipToAddrs_empty. }
  intros ms r w' log Hrun Hrep.
  unfold NewMultiUDPMuxDefault, mbind, Prog_bind in Hrun. rewrite run_bind in Hrun.
  destruct (run_register_muxes h ms (∅, ∅) w) as [Hres Hcalls].
  destruct (run h (register_muxes ms (∅, ∅)) w) as [[r1 w1] l1].
  cbn [fst snd] in Hres, Hcalls.
  assert (Hlog : log = l1).
  { destruct r1 as [[idx grp]|]; cbn [run] in Hrun; injection Hrun as _ _ <-;
      by rewrite ?app_nil_r. }
  subst l1. rewrite Hrep in Hres. cbn [register_all] in Hres. subst r1.
  cbn [run] in Hrun. injection Hrun as <- _ _.
  rewrite range_ipToAddrs_empty.
  eexists. split; [reflexivity|].
  split_and!; try done.
  - by apply Hcalls.
  - intros w2. unfold Close. cbn [muxes].
    destruct (run_close_loop h ms None w2) as (C1 & C2 & _).
    split; [exact C2|]. rewrite C1. f_equal. by destruct (last _).
  - intros w2 ufrag. apply run_remove_loop.
Qed.

(** C7. The constructor asks every multiplexer, in the order supplied, for
    its listen addresses, and the Address Index it builds maps a string to
    the multiplexer of the last report with that string, so that it covers
    exactly the strings reported.  Hence [GetConn] on a reported address
    calls the last multiplexer that reported its string: the later one when
    two report the same string, and the reporting multiplexer itself when
    it is the only one to report that string. *)
Theorem address_index_last_reporter {W} (h : Handler W) ms w m w' log :
  run h (NewMultiUDPMuxDefault ms) w = (Some m, w', log) →
  call_of <$> log = (λ mux, Was (Mux_GetListenAddresses mux)) <$> ms ∧
  (∀ s, localAddrToMux m !! s =
          fst <$> last (filter (λ p, Addr_String p.2 = s) (reports log))) ∧
  (∀ s, is_Some (localAddrToMux m !! s) ↔
          ∃ mux addr, (mux, addr) ∈ reports log ∧ Addr_String addr = s) ∧
  (∀ before mux addr after ufrag,
     reports log = before ++ (mux, addr) :: after →
     (∀ mux' addr', (mux', addr') ∈ after → Addr_String addr' = Addr_String addr →
                    mux' = mux) →
     GetConn m ufrag addr = call (Mux_GetConn mux ufrag addr)) ∧
  (∀ mux addr ufrag,
     (mux, addr) ∈ reports log →
     (∀ mux' addr', (mux', addr') ∈ reports log →
                    Addr_String addr' = Addr_String addr → mux' = mux) →
     GetConn m ufrag addr = call (Mux_GetConn mux ufrag addr)).
Proof.
  intros Hrun. apply run_NewMultiUDPMuxDefault in Hrun as (Hcalls & grp & Hreg & _ & _).
  pose proof (register_all_index _ _ _ _ _ Hreg) as Hidx.
  assert (Hlookup : ∀ s, localAddrToMux m !! s =
            fst <$> last (filter (λ p, Addr_String p.2 = s) (reports log))).
  { intros s. rewrite Hidx. by destruct (last _). }
  assert (Hlast : ∀ addr mux,
            fst <$> last (filter (λ p, Addr_String p.2 = Addr_String addr) (reports log))
              = Some mux →
            ∀ ufrag, GetConn m ufrag addr = call (Mux_GetConn mux ufrag addr)).
  { intros addr mux Hl ufrag. unfold GetConn. by rewrite Hlookup, Hl. }
  split_and!; [done|done| | |].
  - intros s. rewrite Hlookup. split.
    + intros [mux Hmux]. destruct (last _) as [[mux' addr]|] eqn:Hl; [|done].
      apply last_Some_elem_of, list_elem_of_filter in Hl as [Hs Hin].
      by exists mux', addr.
    + intros (mux & addr & Hin & Hs).
      destruct (last _) as [p|] eqn:Hl; [by eexists|].
      apply last_None in Hl.
      assert ((mux, addr) ∈ filter (λ p, Addr_String p.2 = s) (reports log)) as Hf
        by (by apply list_elem_of_filter).
      rewrite Hl in Hf. by apply elem_of_nil in Hf.
  - intros before mux addr after ufrag Heq Hafter. apply Hlast.
    rewrite Heq, (filter_app _ before), (filter_cons _ (mux, addr)). cbn [snd].
    rewrite decide_True by done. rewrite last_app, last_cons.
    destruct (last (filter _ after)) as [[mux' addr']|] eqn:Hl; [|done].
    apply last_Some_elem_of, list_elem_of_filter in Hl as [Hs Hin].
    cbn. f_equal. by eapply Hafter.
  - intros mux addr ufrag Hin Huniq. apply Hlast.
    destruct (last _) as [[mux' addr']|] eqn:Hl.
    + apply last_Some_elem_of, list_elem_of_filter in Hl as [Hs Hin'].
      cbn. f_equal. by eapply Huniq.
    + apply last_None in Hl.
      assert ((mux, addr) ∈ filter (λ p, Addr_String p.2 = Addr_String addr) (reports log))
        as Hf by (by apply list_elem_of_filter).
      rewrite Hl in Hf. by apply elem_of_nil in Hf.
Qed.

Lemma with_ip_Addr_ip ip addrs a : a ∈ with_ip ip addrs → Addr_ip a = Some ip.
Proof. unfold with_ip. by intros [? ?]%list_elem_of_filter. Qed.

Lemma with_ip_nonempty ip addrs :
  with_ip ip addrs ≠ [] ↔ Some ip ∈ Addr_ip <$> addrs.
Proof.
  unfold with_ip. split.
  - intros Hne. destruct (filter _ addrs) as [|a l] eqn:Hf; [done|].
    assert (a ∈ filter (λ a, Addr_ip a = Some ip) addrs) as [Ha Hin]%list_elem_of_filter
      by (rewrite Hf; left).
    rewrite <- Ha. by apply list_elem_of_fmap_2.
  - intros (a & Ha & Hin)%list_elem_of_fmap Hnil.
    assert (a ∈ filter (λ a, Addr_ip a = Some ip) addrs) as Hf
      by (by apply list_elem_of_filter).
    rewrite Hnil in Hf. by apply elem_of_nil in Hf.
Qed.

(** The Address Groups of a constructed aggregate: one per distinct IP
    string among the reported addresses, each holding the addresses
    reported with that IP, in the order reported, with its cursor at
    zero. *)
Lemma constructed_groups {W} (h : Handler W) ms w m w' log :
  run h (NewMultiUDPMuxDefault ms) w = (Some m, w', log) →
  ∃ ips : list string,
    NoDup ips ∧
    (∀ ip, ip ∈ ips ↔ Some ip ∈ Addr_ip <$> (reports log).*2) ∧
    multiPortsAddresses m = (λ ip, fresh_group (with_ip ip (reports log).*2)) <$> ips.
Proof.
  intros (_ & grp & Hreg & _ & Hgroups)%run_NewMultiUDPMuxDefault.
  pose proof (register_all_groups _ _ _ _ _ Hreg) as Hgrp.
  assert (Hentry : ∀ ip g, (ip, g) ∈ range_ipToAddrs grp →
            with_ip ip (reports log).*2 ≠ [] ∧
            g = fresh_group (with_ip ip (reports log).*2)).
  { intros ip g Hin. rewrite range_ipToAddrs_perm in Hin.
    apply elem_of_map_to_list in Hin. rewrite Hgrp, lookup_empty in Hin.
    destruct (with_ip ip _); [done|]. by injection Hin as <-. }
  exists (range_ipToAddrs grp).*1. split_and!.
  - rewrite range_ipToAddrs_perm. apply NoDup_fst_map_to_list.
  - intros ip. rewrite <- with_ip_nonempty. split.
    + intros ([ip' g] & -> & Hin)%list_elem_of_fmap. by apply Hentry in Hin as [? _].
    + intros Hne. rewrite range_ipToAddrs_perm.
      apply list_elem_of_fmap. exists (ip, fresh_group (with_ip ip (reports log).*2)).
      split; [done|]. apply elem_of_map_to_list. rewrite Hgrp, lookup_empty.
      by destruct (with_ip ip _).
  - rewrite Hgroups, <- list_fmap_compose. apply list_fmap_ext.
    intros i [ip g] Hi. cbn. apply list_elem_of_lookup_2, Hentry in Hi. tauto.
Qed.

(** One listing, while no cursor overflows: one member of every group, in
    the order of the groups, and every cursor one further. *)
Lemma collect_next_before_overflow mpas acc :
  Forall before_overflow mpas →
  ∃ l, collect_next mpas acc = (Some (acc ++ l), advance <$> mpas) ∧
       Forall2 (λ a g, a ∈ addresses g) l mpas.
Proof.
  revert acc. induction mpas as [|g mpas IH]; intros acc Hall.
  { exists []. by rewrite app_nil_r. }
  apply Forall_cons in Hall as [[Hfit Hc] Hall].
  destruct (next_in_range_is_Some g Hfit Hc) as [a Ha].
  pose proof (next_addresses g) as Haddr. pose proof (next_nextPos g) as Hpos.
  rewrite wrap32_id in Hpos by (unfold in_range, min_int, max_int in *; lia).
  cbn [collect_next]. destruct (next g) as [r g'] eqn:Hnext. cbn [fst snd] in *.
  subst r. destruct (IH (acc ++ [a]) Hall) as (l & -> & Hl).
  exists (a :: l). split.
  - rewrite <- app_assoc. cbn [app fmap list_fmap]. do 2 f_equal.
    destruct g'; unfold advance; cbn in *. by subst.
  - constructor; [|done].
    pose proof (next_in_range g Hfit Hc) as Hidx. rewrite Hnext in Hidx.
    cbn [fst] in Hidx. by eapply list_elem_of_lookup_2.
Qed.

(** [GetListenAddresses] while no cursor overflows, on an aggregate whose
    groups are those of the IP strings [ips]: the result has exactly one
    address for each of [ips], in that order, each among the addresses
    reported, and every cursor is one further.  With [constructed_groups]
    this is one address per distinct IP reported. *)
Lemma GetListenAddresses_before_overflow m ips addrs :
  Forall2 (λ ip g, addresses g = with_ip ip addrs) ips (multiPortsAddresses m) →
  Forall before_overflow (multiPortsAddresses m) →
  ∃ l, GetListenAddresses m =
         (Some l, {| muxes := muxes m; localAddrToMux := localAddrToMux m;
                     multiPortsAddresses := advance <$> multiPortsAddresses m |}) ∧
       Addr_ip <$> l = Some <$> ips ∧
       length l = length (multiPortsAddresses m) ∧
       l ⊆ addrs.
Proof.
  intros Hgroups Hall. unfold GetListenAddresses.
  destruct (collect_next_before_overflow _ [] Hall) as (l & -> & Hl).
  clear Hall. exists l. cbn [app]. split_and!; [done| |by eapply Forall2_length|].
  - revert ips Hgroups. induction Hl as [|a g l gs Ha Hl IH]; intros ips Hips.
    + by apply Forall2_nil_inv_r in Hips as ->.
    + apply Forall2_cons_inv_r in Hips as (ip & ips' & Hg & Hips & ->).
      rewrite !fmap_cons, (IH _ Hips). f_equal.
      rewrite Hg in Ha. by eapply with_ip_Addr_ip.
  - intros a Ha. revert ips Hgroups. induction Hl as [|a' g l gs Ha' Hl IH]; intros ips Hips.
    + by apply elem_of_nil in Ha.
    + apply Forall2_cons_inv_r in Hips as (ip & ips' & Hg & Hips & ->).
      apply elem_of_cons in Ha as [->|Ha]; [|by eapply IH].
      rewrite Hg in Ha'. unfold with_ip in Ha'.
      by apply list_elem_of_filter in Ha' as [_ ?].
Qed.

(** Before the cursor overflows, any [N] consecutive calls on a group of
    size [N] return its members once each. *)
Lemma next_n_cycle_Permutation g :
  fits_int32 g → 0 ≤ nextPos g →
  nextPos g + Z.of_nat (length (addresses g)) ≤ max_int →
  ∃ l, next_n (length (addresses g)) g = Some <$> l ∧ l ≡ₚ addresses g.
Proof.
  intros Hfit Hc Hk. eexists. split; [by apply next_n_full_cycle|].
  apply rotate_Permutation.
Qed.

(** C10. In an aggregate just constructed, a group holds the addresses
    reported with its IP in the order they were appended, and, when it has
    at least two (and no more than an [int32] counts), its first call of
    [next] returns the element at index 1; the first full cycle returns the
    elements at indices 1, 2, ..., N-1 and then 0, so the element at
    index 0 comes last. *)
Theorem first_call_returns_second_address {W} (h : Handler W) ms w m w' log g :
  run h (NewMultiUDPMuxDefault ms) w = (Some m, w', log) →
  g ∈ multiPortsAddresses m →
  (2 ≤ length (addresses g))%nat →
  Z.of_nat (length (addresses g)) ≤ max_int →
  (∃ ip, addresses g = with_ip ip (reports log).*2) ∧
  is_Some (addresses g !! 1%nat) ∧
  (next g).1 = addresses g !! 1%nat ∧
  next_n (length (addresses g)) g =
    Some <$> (drop 1 (addresses g) ++ take 1 (addresses g)) ∧
  last (next_n (length (addresses g)) g) = Some (addresses g !! 0%nat).
Proof.
  intros (ips & _ & _ & Hgroups)%constructed_groups Hg Hlen Hmax.
  rewrite Hgroups in Hg. apply list_elem_of_fmap in Hg as (ip & -> & _).
  cbn [fresh_group addresses] in *.
  set (addrs := with_ip ip (reports log).*2) in *.
  assert (Hfit : fits_int32 (fresh_group addrs)) by (unfold fits_int32; cbn; lia).
  assert (Hmod : 1 `mod` Z.of_nat (length addrs) = 1) by (apply Z.mod_small; lia).
  assert (Hcycle : next_n (length addrs) (fresh_group addrs)
                   = Some <$> (drop 1 addrs ++ take 1 addrs)).
  { change (length addrs) with (length (addresses (fresh_group addrs))) at 1.
    rewrite next_n_full_cycle; [|done|done|cbn; lia].
    cbn [fresh_group addresses nextPos]. unfold rotate.
    replace (Z.to_nat (0 + 1) `mod` length addrs)%nat with 1%nat; [done|].
    symmetry. apply Nat.mod_small. lia. }
  split_and!.
  - by exists ip.
  - apply lookup_lt_is_Some. lia.
  - rewrite next_in_range; [|done|unfold max_int; cbn; lia].
    cbn [fresh_group addresses nextPos]. by rewrite Z.add_0_l, Hmod.
  - done.
  - rewrite Hcycle, fmap_app, last_app.
    destruct addrs as [|a0 [|a1 addrs']]; cbn in Hlen; [lia..|]. done.
Qed.

(** ** The socket factory *)

Lemma listen_answers_app l1 l2 :
  listen_answers (l1 ++ l2) = listen_answers l1 ++ listen_answers l2.
Proof. apply omap_app. Qed.
Lemma listen_addrs_app l1 l2 :
  listen_addrs (l1 ++ l2) = listen_addrs l1 ++ listen_addrs l2.
Proof. apply omap_app. Qed.
Lemma closed_conns_app l1 l2 :
  closed_conns (l1 ++ l2) = closed_conns l1 ++ closed_conns l2.
Proof. apply omap_app. Qed.
Lemma created_muxes_app l1 l2 :
  created_muxes (l1 ++ l2) = created_muxes l1 ++ created_muxes l2.
Proof. apply omap_app. Qed.
Lemma opened_app l1 l2 : opened (l1 ++ l2) = opened l1 ++ opened l2.
Proof. unfold opened. by rewrite listen_answers_app, omap_app. Qed.
Lemma resolved_ips_app l1 l2 :
  resolved_ips (l1 ++ l2) = resolved_ips l1 ++ resolved_ips l2.
Proof. apply bind_app. Qed.

Lemma length_listen_addrs log :
  length (listen_addrs log) = length (listen_answers log).
Proof.
  induction log as [|[X c x] log IH]; [done|].
  unfold listen_addrs, listen_answers in *.
  destruct c; cbn [omap list_omap listen_addr listen_answer length]; by rewrite ?IH.
Qed.

Lemma omap_all_None {A B} (f : A → option B) l :
  Forall (λ x, f x = None) l → omap f l = [].
Proof. induction 1 as [|x l Hx _ IH]; [done|]. cbn. by rewrite Hx. Qed.

Lemma silent_log log :
  Forall silent log →
  listen_answers log = [] ∧ listen_addrs log = [] ∧ opened log = [] ∧
  closed_conns log = [] ∧ created_muxes log = [] ∧ resolved_ips log = [].
Proof.
  intros Hall. unfold opened.
  assert (listen_answers log = []) as ->.
  { apply omap_all_None. eapply Forall_impl; [done|]. by intros e (? & ? & ? & ? & ?). }
  split_and!; try done.
  1-3: apply omap_all_None; (eapply Forall_impl; [done|]); by intros e (? & ? & ? & ? & ?).
  unfold resolved_ips. induction Hall as [|e l (_ & _ & _ & _ & He) _ IH]; [done|].
  cbn. by rewrite He, IH.
Qed.

Create Rewrite HintDb log.
Hint Rewrite listen_answers_app listen_addrs_app closed_conns_app
  created_muxes_app opened_app resolved_ips_app @app_nil_r : log.

(** The tuning of a socket always goes through and touches only its
    buffers. *)
Lemma run_tune_conn {W} (h : Handler W) p conn w :
  (run h (tune_conn p conn) w).1.1 = Some () ∧
  Forall silent (run h (tune_conn p conn) w).2.
Proof.
  unfold tune_conn, mbind, Prog_bind.
  do 2 case_bool_decide; cbn;
    repeat match goal with |- context [h ?X ?c ?w] => destruct (h X c w) end;
    cbn; split; by repeat constructor.
Qed.

(** The loop over the ports of one IP never panics.  It asks for the
    ports in order and stops at the first that fails; what it hands back
    is [conns] followed by the sockets opened (wrapped as configured) and
    that failure, if any. *)
Lemma run_ports_loop {W} (h : Handler W) p n ip ports conns w :
  ∃ err,
    (run h (ports_loop p n ip ports conns) w).1.1 =
      Some (conns ++ (wrap_conn p <$> opened (run h (ports_loop p n ip ports conns) w).2),
            err) ∧
    listen_answers (run h (ports_loop p n ip ports conns) w).2 =
      (inl <$> opened (run h (ports_loop p n ip ports conns) w).2)
        ++ match err with Some e => [inr e] | None => [] end ∧
    listen_addrs (run h (ports_loop p n ip ports conns) w).2 =
      take (length (listen_answers (run h (ports_loop p n ip ports conns) w).2))
           (listen_targets [ip] ports) ∧
    (err = None →
     length (opened (run h (ports_loop p n ip ports conns) w).2) = length ports) ∧
    closed_conns (run h (ports_loop p n ip ports conns) w).2 = [] ∧
    created_muxes (run h (ports_loop p n ip ports conns) w).2 = [] ∧
    resolved_ips (run h (ports_loop p n ip ports conns) w).2 = [].
Proof.
  revert conns w. induction ports as [|port ports IH]; intros conns w.
  { exists None. cbn. by rewrite app_nil_r. }
  cbn [ports_loop]. unfold mbind, Prog_bind. rewrite run_bind, run_call.
  destruct (h _ (Net_ListenUDP n "udp" (mkUDPAddr ip port "")) w) as [[conn|listenErr] w1];
    cbn [fst snd]; [|exists (Some listenErr); cbn; by rewrite app_nil_r].
  rewrite run_bind.
  destruct (run_tune_conn h p conn w1) as [Ht1 Ht2].
  destruct (run h (tune_conn p conn) w1) as [[rt wt] lt]. cbn [fst snd] in Ht1, Ht2.
  subst rt. apply silent_log in Ht2 as (Hs1 & Hs2 & Hs3 & Hs4 & Hs5 & Hs6).
  destruct (IH (conns ++ [wrap_conn p conn]) wt)
    as (err & IH1 & IH2 & IH3 & IH4 & IH5 & IH6 & IH7).
  destruct (run h (ports_loop p n ip ports (conns ++ [wrap_conn p conn])) wt)
    as [[r2 w2] l2]. cbn [fst snd] in *.
  exists err.
  assert (Hhd : ∀ l, listen_answers (Ev (Net_ListenUDP n "udp" (mkUDPAddr ip port "")) (inl conn) :: l)
                     = inl conn :: listen_answers l) by done.
  assert (Hhd2 : ∀ l, opened (Ev (Net_ListenUDP n "udp" (mkUDPAddr ip port "")) (inl conn) :: l)
                      = conn :: opened l) by done.
  assert (Hhd3 : ∀ l x, listen_addrs (Ev (Net_ListenUDP n "udp" (mkUDPAddr ip port "")) x :: l)
                      = mkUDPAddr ip port "" :: listen_addrs l) by done.
  assert (Hhd4 : ∀ l x, closed_conns (Ev (Net_ListenUDP n "udp" (mkUDPAddr ip port "")) x :: l)
                      = closed_conns l) by done.
  assert (Hhd5 : ∀ l x, created_muxes (Ev (Net_ListenUDP n "udp" (mkUDPAddr ip port "")) x :: l)
                      = created_muxes l) by done.
  assert (Hhd6 : ∀ l x, resolved_ips (Ev (Net_ListenUDP n "udp" (mkUDPAddr ip port "")) x :: l)
                      = resolved_ips l) by done.
  cbn [app]. rewrite Hhd, Hhd2, Hhd3, Hhd4, Hhd5, Hhd6.
  autorewrite with log. rewrite Hs1, Hs2, Hs3, Hs4, Hs5, Hs6. cbn [app].
  split_and!.
  - rewrite IH1. by rewrite fmap_cons, <- app_assoc.
  - by rewrite IH2.
  - rewrite IH3. cbn. by rewrite !app_nil_r.
  - intros Herr. cbn. by rewrite IH4.
  - done.
  - done.
  - done.
Qed.

Lemma listen_targets_cons ip ips ports :
  listen_targets (ip :: ips) ports =
    listen_targets [ip] ports ++ listen_targets ips ports.
Proof. unfold listen_targets. cbn. by rewrite app_nil_r. Qed.

Lemma length_listen_targets_one ip ports :
  length (listen_targets [ip] ports) = length ports.
Proof.
  unfold listen_targets. cbn. rewrite app_nil_r.
  induction ports as [|port ports IH]; [done|]. cbn. by rewrite IH.
Qed.

(** The loop over the IPs never panics.  It goes through the (IP, port)
    pairs in order and stops at the first socket that fails to open. *)
Lemma run_ips_loop {W} (h : Handler W) p n ips ports conns w :
  ∃ err,
    (run h (ips_loop p n ips ports conns) w).1.1 =
      Some (conns ++ (wrap_conn p <$> opened (run h (ips_loop p n ips ports conns) w).2),
            err) ∧
    listen_answers (run h (ips_loop p n ips ports conns) w).2 =
      (inl <$> opened (run h (ips_loop p n ips ports conns) w).2)
        ++ match err with Some e => [inr e] | None => [] end ∧
    listen_addrs (run h (ips_loop p n ips ports conns) w).2 =
      take (length (listen_answers (run h (ips_loop p n ips ports conns) w).2))
           (listen_targets ips ports) ∧
    closed_conns (run h (ips_loop p n ips ports conns) w).2 = [] ∧
    created_muxes (run h (ips_loop p n ips ports conns) w).2 = [] ∧
    resolved_ips (run h (ips_loop p n ips ports conns) w).2 = [].
Proof.
  revert conns w. induction ips as [|ip ips IH]; intros conns w.
  { exists None. cbn. by rewrite app_nil_r. }
  cbn [ips_loop]. unfold mbind, Prog_bind. rewrite run_bind.
  destruct (run_ports_loop h p n ip ports conns w)
    as (err1 & H1 & H2 & H3 & H4 & H5 & H6 & H7).
  destruct (run h (ports_loop p n ip ports conns) w) as [[r1 w1] l1].
  cbn [fst snd] in *. subst r1. rewrite listen_targets_cons.
  destruct err1 as [e|].
  - exists (Some e). cbn [run fst snd]. autorewrite with log.
    split_and!; [done..| |done|done|done].
    rewrite H3, take_app_le; [done|].
    rewrite <- length_listen_addrs, H3, length_take. lia.
  - rewrite app_nil_r in H2. specialize (H4 eq_refl).
    destruct (IH (conns ++ (wrap_conn p <$> opened l1)) w1)
      as (err & IH1 & IH2 & IH3 & IH4 & IH5 & IH6).
    destruct (run h (ips_loop p n ips ports (conns ++ (wrap_conn p <$> opened l1))) w1)
      as [[r2 w2] l2]. cbn [fst snd] in *.
    exists err. autorewrite with log. split_and!.
    + by rewrite IH1, fmap_app, app_assoc.
    + by rewrite H2, IH2, fmap_app, app_assoc.
    + rewrite H3, IH3. rewrite H2, !length_app, !length_fmap, H4.
      rewrite take_app_add'; [|by rewrite length_listen_targets_one].
      f_equal. rewrite take_ge; [done|]. by rewrite length_listen_targets_one.
    + by rewrite H5, IH4.
    + by rewrite H6, IH5.
    + by rewrite H7, IH6.
Qed.

Lemma run_close_conns {W} (h : Handler W) conns w :
  (run h (close_conns conns) w).1.1 = Some () ∧
  call_of <$> (run h (close_conns conns) w).2 = (λ c, Was (Conn_Close c)) <$> conns ∧
  closed_conns (run h (close_conns conns) w).2 = conns ∧
  listen_answers (run h (close_conns conns) w).2 = [] ∧
  listen_addrs (run h (close_conns conns) w).2 = [] ∧
  created_muxes (run h (close_conns conns) w).2 = [] ∧
  resolved_ips (run h (close_conns conns) w).2 = [].
Proof.
  revert w. induction conns as [|conn conns IH]; intros w; [done|].
  cbn [close_conns]. unfold mbind, Prog_bind. rewrite run_bind, run_call.
  destruct (IH (h _ (Conn_Close conn) w).2) as (IH1 & IH2 & IH3 & IH4 & IH5 & IH6 & IH7).
  destruct (run h (close_conns conns) _) as [[r w2] l2]. cbn [fst snd app] in *.
  split_and!; [done|by rewrite fmap_cons, IH2| |done..].
  change (conn :: closed_conns l2 = conn :: conns). by rewrite IH3.
Qed.

Lemma run_make_muxes {W} (h : Handler W) p conns ms w :
  is_Some (run h (make_muxes p conns ms) w).1.1 ∧
  created_muxes (run h (make_muxes p conns ms) w).2 = conns ∧
  listen_answers (run h (make_muxes p conns ms) w).2 = [] ∧
  listen_addrs (run h (make_muxes p conns ms) w).2 = [] ∧
  closed_conns (run h (make_muxes p conns ms) w).2 = [] ∧
  resolved_ips (run h (make_muxes p conns ms) w).2 = [].
Proof.
  revert ms w. induction conns as [|conn conns IH]; intros ms w; [by split_and!|].
  cbn [make_muxes]. unfold mbind, Prog_bind. rewrite run_bind, run_call.
  set (c := Call_NewUDPMuxDefault (logger p) conn (net p)).
  destruct (IH (ms ++ [(h _ c w).1]) (h _ c w).2) as (IH1 & IH2 & IH3 & IH4 & IH5 & IH6).
  destruct (run h (make_muxes p conns _) _) as [[r w2] l2]. cbn [fst snd app] in *.
  split_and!; [done| |done..].
  change (conn :: created_muxes l2 = conn :: conns). by rewrite IH2.
Qed.

(** The constructor of the aggregate only talks to the multiplexers. *)
Lemma run_register_muxes_silent {W} (h : Handler W) ms st w :
  Forall silent (run h (register_muxes ms st) w).2.
Proof.
  revert st w. induction ms as [|mux ms IH]; intros st w; [by constructor|].
  cbn [register_muxes]. unfold mbind, Prog_bind. rewrite run_bind, run_call.
  destruct (register_addrs mux _ st) as [st'|].
  - specialize (IH st' (h _ (Mux_GetListenAddresses mux) w).2).
    destruct (run h (register_muxes ms st') _) as [[r w2] l2]. cbn [fst snd app] in *.
    by constructor.
  - cbn. by repeat constructor.
Qed.

Lemma run_NewMultiUDPMuxDefault_silent {W} (h : Handler W) ms w :
  Forall silent (run h (NewMultiUDPMuxDefault ms) w).2.
Proof.
  unfold NewMultiUDPMuxDefault, mbind, Prog_bind. rewrite run_bind.
  pose proof (run_register_muxes_silent h ms (∅, ∅) w) as Hs.
  destruct (run h (register_muxes ms (∅, ∅)) w) as [[[[idx grp]|] w1] l1];
    cbn [fst snd run] in *; [|done].
  by rewrite app_nil_r.
Qed.

(** Lines 135-177: when a socket fails to open. *)
Lemma run_open_and_aggregate {W} (h : Handler W) p n ips ports w r w' log e :
  run h (open_and_aggregate p n ips ports) w = (r, w', log) →
  inr e ∈ listen_answers log →
  r = Some (None, Some e) ∧
  listen_answers log = (inl <$> opened log) ++ [inr e] ∧
  listen_addrs log = take (S (length (opened log))) (listen_targets ips ports) ∧
  closed_conns log = wrap_conn p <$> opened log ∧
  created_muxes log = [] ∧
  resolved_ips log = [] ∧
  ∃ opening closing,
    log = opening ++ closing ∧
    listen_answers opening = listen_answers log ∧
    closed_conns opening = [] ∧
    call_of <$> closing = (λ c, Was (Conn_Close c)) <$> (wrap_conn p <$> opened log).
Proof.
  unfold open_and_aggregate, mbind, Prog_bind. rewrite run_bind.
  destruct (run_ips_loop h p n ips ports [] w) as (err & H1 & H2 & H3 & H4 & H5 & H6).
  destruct (run h (ips_loop p n ips ports []) w) as [[r1 w1] l1].
  cbn [fst snd app] in *. subst r1. destruct err as [e1|].
  - rewrite run_bind.
    destruct (run_close_conns h (wrap_conn p <$> opened l1) w1)
      as (C1 & C2 & C3 & C4 & C5 & C6 & C7).
    destruct (run h (close_conns _) w1) as [[r2 w2] l2]. cbn [fst snd run] in *.
    subst r2. intros [= <- <- <-]. autorewrite with log.
    assert (O2 : opened l2 = []) by (unfold opened; by rewrite C4).
    rewrite O2, C3, C4, C5, C6, C7, H4, H5, H6. autorewrite with log. cbn [app].
    rewrite H2. intros [Hin|Heq%list_elem_of_singleton]%elem_of_app.
    { by apply list_elem_of_fmap in Hin as (? & ? & _). }
    injection Heq as ->.
    split_and!; try done.
    + rewrite H3, H2, length_app, length_fmap. cbn. f_equal. lia.
    + exists l1, l2. by rewrite H2.
  - rewrite app_nil_r in H2. rewrite run_bind.
    destruct (run_make_muxes h p (wrap_conn p <$> opened l1) [] w1)
      as (_ & _ & M3 & _).
    destruct (run h (make_muxes _ _ _) w1) as [[[ms|] w2] l2]; cbn [fst snd] in *.
    + rewrite run_bind.
      pose proof (run_NewMultiUDPMuxDefault_silent h ms w2) as Hs.
      apply silent_log in Hs as (Hs & _).
      destruct (run h (NewMultiUDPMuxDefault ms) w2) as [[[m|] w3] l3];
        cbn [fst snd run] in *; intros [= <- <- <-]; autorewrite with log;
        rewrite H2, M3, Hs; autorewrite with log;
        by intros (? & ? & _)%list_elem_of_fmap.
    + intros [= <- <- <-]. autorewrite with log. rewrite H2, M3. autorewrite with log.
      by intros (? & ? & _)%list_elem_of_fmap.
Qed.

Lemma wrap_conn_with_net n p : wrap_conn (UDPMuxFromPortWithNet n p) = wrap_conn p.
Proof. done. Qed.

(** Lines 130-177, after whatever calls came before. *)
Lemma run_resolve_then_open {W} (h : Handler W) p n ports w r w' log pre e :
  Forall silent pre →
  run h (bind (call (Call_localInterfaces n (ifFilter p) (ipFilter p)
                       (networks p) (includeLoopback p)))
              (λ ips, match ips with
                      | inr err => Ret (None, Some err)
                      | inl ips => open_and_aggregate p n ips ports
                      end)) w = (r, w', log) →
  inr e ∈ listen_answers (pre ++ log) →
  r = Some (None, Some e) ∧
  listen_answers (pre ++ log) = (inl <$> opened (pre ++ log)) ++ [inr e] ∧
  listen_addrs (pre ++ log) =
    take (S (length (opened (pre ++ log))))
         (listen_targets (resolved_ips (pre ++ log)) ports) ∧
  closed_conns (pre ++ log) = wrap_conn p <$> opened (pre ++ log) ∧
  created_muxes (pre ++ log) = [] ∧
  ∃ opening closing,
    pre ++ log = opening ++ closing ∧
    listen_answers opening = listen_answers (pre ++ log) ∧
    closed_conns opening = [] ∧
    call_of <$> closing =
      (λ c, Was (Conn_Close c)) <$> (wrap_conn p <$> opened (pre ++ log)).
Proof.
  intros (P1 & P2 & P3 & P4 & P5 & P6)%silent_log Hrun.
  rewrite run_bind, run_call in Hrun.
  set (c := Call_localInterfaces _ _ _ _ _) in Hrun.
  destruct (h _ c w) as [[ips|err] w1]; cbn [fst snd] in Hrun.
  - destruct (run h (open_and_aggregate _ n ips ports) w1) as [[r1 w1'] l1] eqn:Hopen.
    injection Hrun as <- <- <-.
    assert (R1 : ∀ l, listen_answers (Ev c (inl ips) :: l) = listen_answers l) by done.
    assert (R2 : ∀ l, listen_addrs (Ev c (inl ips) :: l) = listen_addrs l) by done.
    assert (R3 : ∀ l, opened (Ev c (inl ips) :: l) = opened l) by done.
    assert (R4 : ∀ l, closed_conns (Ev c (inl ips) :: l) = closed_conns l) by done.
    assert (R5 : ∀ l, created_muxes (Ev c (inl ips) :: l) = created_muxes l) by done.
    assert (R6 : ∀ l, resolved_ips (Ev c (inl ips) :: l) = ips ++ resolved_ips l) by done.
    autorewrite with log. cbn [app].
    rewrite P1, P2, P3, P4, P5, P6, R1, R2, R3, R4, R5, R6. cbn [app].
    intros Hin.
    destruct (run_open_and_aggregate _ _ _ _ _ _ _ _ _ _ Hopen Hin)
      as (Hr & A1 & A2 & A3 & A4 & A5 & opening & closing & -> & B1 & B2 & B3).
    rewrite A5, app_nil_r.
    split_and!; try done.
    exists (pre ++ Ev c (inl ips) :: opening), closing. split_and!.
    + by rewrite <- app_assoc.
    + by rewrite listen_answers_app, P1, R1.
    + by rewrite closed_conns_app, P4, R4.
    + done.
  - injection Hrun as <- <- <-. autorewrite with log. cbn [app].
    rewrite P1. by intros ?%elem_of_nil.
Qed.

(** C6. In [NewMultiUDPMuxFromPorts], when a socket fails to open, that
    failure is the last [ListenUDP] call made: the sockets asked for are
    the (IP, port) pairs in order up to the failing one, all before it
    opened, none is asked for after it.  Every socket opened (wrapped for
    batch writes when so configured) is then closed, once and in the order
    it was opened, the closing calls being the last calls made; no
    multiplexer is created, and the result is nil with the error of the
    failed open. *)
Theorem socket_open_failure_closes_opened {W} (h : Handler W) ports opts w r w' log e :
  run h (NewMultiUDPMuxFromPorts ports opts) w = (r, w', log) →
  inr e ∈ listen_answers log →
  r = Some (None, Some e) ∧
  listen_answers log = (inl <$> opened log) ++ [inr e] ∧
  listen_addrs log =
    take (S (length (opened log))) (listen_targets (resolved_ips log) ports) ∧
  closed_conns log =
    wrap_conn (foldl (λ p opt, opt p) default_param opts) <$> opened log ∧
  created_muxes log = [] ∧
  ∃ opening closing,
    log = opening ++ closing ∧
    listen_answers opening = listen_answers log ∧
    closed_conns opening = [] ∧
    call_of <$> closing =
      (λ c, Was (Conn_Close c))
        <$> (wrap_conn (foldl (λ p opt, opt p) default_param opts) <$> opened log).
Proof.
  unfold NewMultiUDPMuxFromPorts, mbind, Prog_bind.
  set (p := foldl (λ p opt, opt p) default_param opts).
  rewrite run_bind.
  destruct (net p) as [n|] eqn:Hnet; cbn [run].
  - destruct (run h (bind _ _) w) as [[r0 w0'] log0] eqn:Hrun.
    intros [= <- <- <-] Hin.
    rewrite <- (wrap_conn_with_net (Some n) p).
    by eapply (run_resolve_then_open h _ n ports w _ _ _ []).
  - rewrite run_call.
    destruct (h _ Stdnet_NewNet w) as [[n|err] w1]; cbn [fst snd].
    + destruct (run h (bind _ _) w1) as [[r0 w0'] log0] eqn:Hrun.
      intros [= <- <- <-] Hin.
      rewrite <- (wrap_conn_with_net (Some n) p).
      eapply (run_resolve_then_open h _ n ports w1 _ _ _ [Ev Stdnet_NewNet (inl n)]);
        [|done..].
      by repeat constructor.
    + cbn. intros [= <- <- <-]. by intros ?%elem_of_nil.
Qed.

(** * Further properties *)

(** ** The address balancer, for every cursor *)

(** X1. On a non-empty group whose size an [int32] counts, [next]
    returns a member exactly when the advanced cursor is non-negative or a
    multiple of the size, and the member is then the one at the cursor
    modulo the size; in every other case, a negative cursor that is no
    multiple of the size, it panics. *)
Theorem next_returns_member_iff g :
  fits_int32 g →
  let pos := wrap32 (nextPos g + 1) in
  let n := Z.of_nat (length (addresses g)) in
  (is_Some (next g).1 ↔ 0 ≤ pos ∨ (n | pos)) ∧
  (0 ≤ pos ∨ (n | pos) → (next g).1 = addresses g !! Z.to_nat (pos `mod` n)) ∧
  (pos < 0 → ¬ (n | pos) → (next g).1 = None).
Proof.
  intros Hfit pos n. unfold fits_int32, max_int in Hfit. fold n in Hfit.
  assert (Hnext : (next g).1 = index_int32 (addresses g) (Z.rem pos n)).
  { unfold next, nextPos_Add. fold pos.
    rewrite (wrap32_id (Z.of_nat _)) by (unfold in_range, min_int, max_int; lia).
    fold n. rewrite bool_decide_false by lia. done. }
  assert (Hgood : 0 ≤ pos ∨ (n | pos) →
                  Z.rem pos n = pos `mod` n ∧ 0 ≤ pos `mod` n < n).
  { intros Hor. pose proof (Z.mod_pos_bound pos n ltac:(lia)) as Hb.
    split; [|done]. destruct Hor as [Hpos|Hdiv].
    - apply Z.rem_mod_nonneg; lia.
    - apply Z.rem_divide in Hdiv as Hrem; [|lia].
      apply Z.mod_divide in Hdiv; [|lia]. lia. }
  assert (Hbad : pos < 0 → ¬ (n | pos) → Z.rem pos n < 0).
  { intros Hneg Hdiv. pose proof (Z.rem_nonpos pos n ltac:(lia) ltac:(lia)).
    destruct (decide (Z.rem pos n = 0)) as [Hz|]; [|lia].
    apply Z.rem_divide in Hz; [done|lia]. }
  split_and!.
  - rewrite Hnext. split.
    + intros Hsome. destruct (decide (0 ≤ pos)); [by left|right].
      destruct (decide (Z.rem pos n = 0)) as [Hz|Hnz].
      { apply Z.rem_divide in Hz; [done|lia]. }
      pose proof (Z.rem_nonpos pos n ltac:(lia) ltac:(lia)).
      unfold index_int32 in Hsome.
      rewrite bool_decide_true in Hsome by lia. by destruct Hsome.
    + intros [Hrem Hb]%Hgood. rewrite Hrem. unfold index_int32.
      rewrite bool_decide_false by lia. apply lookup_lt_is_Some. lia.
  - intros [Hrem Hb]%Hgood. rewrite Hnext, Hrem. unfold index_int32.
    by rewrite bool_decide_false by lia.
  - intros Hneg Hdiv. rewrite Hnext. unfold index_int32.
    by rewrite bool_decide_true by (by apply Hbad).
Qed.

(** X2. A group of a single address returns that address on every call,
    however many calls came before, also past the overflow of the
    cursor. *)
Theorem singleton_group_always_returns (a : Addr) (k : N) :
  (next (after_calls k (fresh_group [a]))).1 = Some a.
Proof. rewrite after_calls_fresh. apply next_singleton. Qed.

(** X3. While the cursor stays short of its overflow, the [N] consecutive
    calls on a group of size [N] starting at any cursor return the group's
    list rotated to start right after the cursor, hence every member once
    (as often as it is in the list). *)
Theorem rotation_before_overflow g :
  fits_int32 g → 0 ≤ nextPos g →
  nextPos g + Z.of_nat (length (addresses g)) ≤ max_int →
  next_n (length (addresses g)) g =
    Some <$> rotate (Z.to_nat (nextPos g + 1)) (addresses g) ∧
  rotate (Z.to_nat (nextPos g + 1)) (addresses g) ≡ₚ addresses g.
Proof.
  intros Hfit Hc Hk. split; [by apply next_n_full_cycle|apply rotate_Permutation].
Qed.

(** X4. Calls of [next] never change the addresses of a group, and its
    cursor counts them modulo 2^32: after [k] calls it is the initial
    cursor plus [k], wrapped to [int32]. *)
Theorem cursor_counts_calls (k : N) g :
  in_range (nextPos g) →
  addresses (after_calls k g) = addresses g ∧
  nextPos (after_calls k g) = wrap32 (nextPos g + Z.of_N k) ∧
  in_range (nextPos (after_calls k g)).
Proof.
  intros Hg. split_and!.
  - apply after_calls_addresses.
  - by apply after_calls_nextPos.
  - rewrite after_calls_nextPos by exact Hg. apply wrap32_in_range.
Qed.


(** ** The constructor, beyond the Address Index *)

Lemma register_addr_None mux st a :
  register_addr mux st a = None ↔ Addr_ip a = None.
Proof.
  destruct st as [idx grp]. unfold register_addr. destruct a as [u|]; [|done].
  cbn [Addr_ip]. by destruct (grp !! IP_String (udp_IP u)).
Qed.

Lemma register_all_None l st :
  register_all l st = None ↔ ∃ p, p ∈ l ∧ Addr_ip p.2 = None.
Proof.
  revert st. induction l as [|[mux a] l IH]; intros st.
  { split; [done|]. by intros (p & Hp%elem_of_nil & _). }
  cbn [register_all].
  destruct (register_addr mux st a) as [st'|] eqn:Hone.
  - rewrite IH. split.
    + intros (p & Hp & Hnone). exists p. split; [by right|done].
    + intros (p & [->|Hp]%elem_of_cons & Hnone); [|by exists p].
      cbn [snd] in Hnone. apply (register_addr_None mux st) in Hnone.
      by rewrite Hnone in Hone.
  - apply register_addr_None in Hone. split; [|done].
    intros _. exists (mux, a). split; [left|done].
Qed.

(** X5. The constructor panics exactly when one of the listen addresses it
    was given is not a [*net.UDPAddr] (the type assertion of line 49); with
    UDP addresses only it always returns an aggregate. *)
Theorem constructor_panics_iff_non_udp {W} (h : Handler W) ms w :
  (run h (NewMultiUDPMuxDefault ms) w).1.1 = None ↔
  ∃ addr, addr ∈ (reports (run h (NewMultiUDPMuxDefault ms) w).2).*2 ∧
          Addr_ip addr = None.
Proof.
  unfold NewMultiUDPMuxDefault, mbind, Prog_bind. rewrite run_bind.
  destruct (run_register_muxes h ms (∅, ∅) w) as [Hr _].
  destruct (run h (register_muxes ms (∅, ∅)) w) as [[r1 w1] l1].
  cbn [fst snd] in Hr.
  assert (Hiff : r1 = None ↔ ∃ addr, addr ∈ (reports l1).*2 ∧ Addr_ip addr = None).
  { rewrite Hr, register_all_None. split.
    - intros ([mux a] & Hin & Hnone). exists a. split; [|done].
      apply list_elem_of_fmap. by exists (mux, a).
    - intros (a & ([mux a'] & -> & Hin)%list_elem_of_fmap & Hnone). by exists (mux, a'). }
  destruct r1 as [[idx grp]|]; cbn [run fst snd].
  - rewrite app_nil_r. rewrite <- Hiff. done.
  - by rewrite <- Hiff.
Qed.

(** X6. On success the constructor keeps the multiplexers as supplied and
    makes one Address Group per distinct IP string among the reported
    addresses: each group holds the addresses reported with its IP, in the
    order they were reported, is not empty and has its cursor at zero. *)
Theorem constructor_groups_by_ip {W} (h : Handler W) ms w m w' log :
  run h (NewMultiUDPMuxDefault ms) w = (Some m, w', log) →
  muxes m = ms ∧
  ∃ ips : list string,
    NoDup ips ∧
    (∀ ip, ip ∈ ips ↔ ∃ addr, addr ∈ (reports log).*2 ∧ Addr_ip addr = Some ip) ∧
    multiPortsAddresses m =
      (λ ip, fresh_group (with_ip ip (reports log).*2)) <$> ips ∧
    Forall (λ g, addresses g ≠ [] ∧ nextPos g = 0) (multiPortsAddresses m).
Proof.
  intros Hrun. destruct (constructed_groups h ms w m w' log Hrun)
    as (ips & Hnodup & Hips & Hgroups).
  apply run_NewMultiUDPMuxDefault in Hrun as (_ & _ & _ & Hmuxes & _).
  split; [done|]. exists ips. split_and!; [done| |done|].
  - intros ip. rewrite Hips, list_elem_of_fmap. split.
    + intros (a & Ha & Hin). by exists a.
    + intros (a & Hin & Ha). by exists a.
  - rewrite Hgroups. apply Forall_fmap, Forall_forall. intros ip Hip.
    cbn. split; [|done]. apply with_ip_nonempty. by apply Hips.
Qed.

Lemma bind_filter_other {A} (f : A → option string) (ks : list string) k0 x l :
  f x = Some k0 → k0 ∉ ks →
  (ks ≫= λ k, filter (λ y, f y = Some k) (x :: l)) =
  (ks ≫= λ k, filter (λ y, f y = Some k) l).
Proof.
  intros Hx. induction ks as [|k ks IH]; intros Hnot; [done|].
  apply not_elem_of_cons in Hnot as [Hne Hnot].
  rewrite !bind_cons, IH by done. f_equal.
  rewrite filter_cons. rewrite decide_False; [done|]. congruence.
Qed.

(** Sorting a list into the classes of a key loses and repeats nothing. *)
Lemma partition_by_key {A} (f : A → option string) (keys : list string) (l : list A) :
  NoDup keys →
  (∀ x, x ∈ l → ∃ k, f x = Some k ∧ k ∈ keys) →
  (keys ≫= λ k, filter (λ y, f y = Some k) l) ≡ₚ l.
Proof.
  intros Hnodup. induction l as [|x l IH]; intros Hcover.
  { clear. induction keys as [|k keys IH]; [done|]. cbn. by rewrite IH. }
  destruct (Hcover x) as (k0 & Hx & Hk0); [left|].
  apply list_elem_of_split in Hk0 as (k1 & k2 & ->).
  apply NoDup_app in Hnodup as Hnd. destruct Hnd as (_ & Hk1 & Hnd2).
  apply NoDup_cons in Hnd2 as [Hk2 _].
  assert (k0 ∉ k1) by (intros Hin; apply (Hk1 _ Hin); left).
  trans (x :: ((k1 ++ k0 :: k2) ≫= λ k, filter (λ y, f y = Some k) l)).
  2: { apply perm_skip, IH. intros y Hy. apply Hcover. by right. }
  rewrite !bind_app, !bind_cons.
  rewrite (bind_filter_other f k1 k0), (bind_filter_other f k2 k0) by done.
  rewrite filter_cons, decide_True by done.
  symmetry. apply Permutation_middle.
Qed.

(** X7. The groups of a constructed aggregate partition the reported
    addresses: put end to end, their address lists are a permutation of
    everything the multiplexers reported, so no address is lost and none
    is listed under two IPs. *)
Theorem constructor_groups_partition {W} (h : Handler W) ms w m w' log :
  run h (NewMultiUDPMuxDefault ms) w = (Some m, w', log) →
  (multiPortsAddresses m ≫= addresses) ≡ₚ (reports log).*2.
Proof.
  intros Hrun. destruct (constructed_groups h ms w m w' log Hrun)
    as (ips & Hnodup & Hips & ->).
  assert (Hudp : ∀ a, a ∈ (reports log).*2 → ∃ ip, Addr_ip a = Some ip ∧ ip ∈ ips).
  { intros a Ha. destruct (Addr_ip a) as [ip|] eqn:Hip.
    - exists ip. split; [done|]. apply Hips. rewrite <- Hip.
      by apply list_elem_of_fmap_2.
    - apply run_NewMultiUDPMuxDefault in Hrun as (_ & grp & Hreg & _).
      apply list_elem_of_fmap in Ha as ([mux a'] & -> & Hin).
      assert (register_all (reports log) (∅, ∅) = None) as Hnone
        by (apply register_all_None; by exists (mux, a')).
      by rewrite Hnone in Hreg. }
  etrans; [|exact (partition_by_key Addr_ip ips (reports log).*2 Hnodup Hudp)].
  clear. induction ips as [|ip ips IH]; [done|].
  rewrite fmap_cons, !bind_cons. by apply Permutation_app.
Qed.

Lemma run_register_muxes_reporters {W} (h : Handler W) ms st w :
  Forall (λ p, p.1 ∈ ms) (reports (run h (register_muxes ms st) w).2).
Proof.
  revert st w. induction ms as [|mux ms IH]; intros st w; [by constructor|].
  cbn [register_muxes]. unfold mbind, Prog_bind. rewrite run_bind, run_call.
  set (addrs := (h _ (Mux_GetListenAddresses mux) w).1).
  assert (Hhere : Forall (λ p : UDPMux * Addr, p.1 ∈ mux :: ms) ((mux,.) <$> addrs)).
  { apply Forall_fmap, Forall_forall. intros a _. left. }
  assert (Hrep : ∀ l, reports (Ev (Mux_GetListenAddresses mux) addrs :: l)
                      = ((mux,.) <$> addrs) ++ reports l) by done.
  destruct (register_addrs mux addrs st) as [st'|].
  - specialize (IH st' (h _ (Mux_GetListenAddresses mux) w).2).
    destruct (run h (register_muxes ms st') _) as [[r w2] l2]. cbn [fst snd app] in *.
    rewrite Hrep. apply Forall_app. split; [done|].
    eapply Forall_impl; [done|]. intros p Hp. by right.
  - cbn [run fst snd app]. rewrite Hrep. apply Forall_app. by split.
Qed.

(** X8. Every multiplexer in the Address Index of a constructed aggregate
    is one of its constituent multiplexers: [GetConn] either fails with
    [errNoUDPMuxAvailable] or calls [GetConn] on a member of [muxes]. *)
Theorem GetConn_calls_a_constituent {W} (h : Handler W) ms w m w' log :
  run h (NewMultiUDPMuxDefault ms) w = (Some m, w', log) →
  (∀ s mux, localAddrToMux m !! s = Some mux → mux ∈ muxes m) ∧
  (∀ ufrag addr,
     GetConn m ufrag addr = Ret (None, Some errNoUDPMuxAvailable) ∨
     ∃ mux, mux ∈ muxes m ∧ GetConn m ufrag addr = call (Mux_GetConn mux ufrag addr)).
Proof.
  intros Hrun.
  assert (Hidx : ∀ s mux, localAddrToMux m !! s = Some mux → mux ∈ muxes m).
  { pose proof Hrun as (_ & grp & Hreg & -> & _)%run_NewMultiUDPMuxDefault.
    intros s mux. rewrite (register_all_index _ _ _ _ _ Hreg s), lookup_empty.
    destruct (last _) as [p|] eqn:Hlast; [|done]. intros [= <-].
    apply last_Some_elem_of, list_elem_of_filter in Hlast as [_ Hin].
    unfold NewMultiUDPMuxDefault, mbind, Prog_bind in Hrun. rewrite run_bind in Hrun.
    pose proof (run_register_muxes_reporters h ms (∅, ∅) w) as Hall.
    destruct (run h (register_muxes ms (∅, ∅)) w) as [[[[idx grp']|] w1] l1];
      cbn [fst snd run] in *; [|done].
    injection Hrun as _ _ <-. rewrite app_nil_r in Hin.
    by apply (proj1 (Forall_forall _ _) Hall). }
  split; [done|]. intros ufrag addr. unfold GetConn.
  destruct (localAddrToMux m !! Addr_String addr) as [mux|] eqn:Hl; [right|by left].
  exists mux. split; [by eapply Hidx|done].
Qed.


(** ** Listings, one after the other *)

Lemma GetListenAddresses_collect m :
  (GetListenAddresses m).1 = (collect_next (multiPortsAddresses m) []).1 ∧
  muxes (GetListenAddresses m).2 = muxes m ∧
  localAddrToMux (GetListenAddresses m).2 = localAddrToMux m ∧
  multiPortsAddresses (GetListenAddresses m).2 =
    (collect_next (multiPortsAddresses m) []).2.
Proof.
  unfold GetListenAddresses. by destruct (collect_next _ _) as [res mpas].
Qed.

Lemma after_listings_succ k m :
  after_listings (N.succ k) m = (GetListenAddresses (after_listings k m)).2.
Proof. unfold after_listings. by rewrite N.iter_succ. Qed.

(** A listing, panic or not, leaves the addresses of every group as they
    were. *)
Lemma collect_next_addresses mpas acc :
  addresses <$> (collect_next mpas acc).2 = addresses <$> mpas.
Proof.
  revert acc. induction mpas as [|g mpas IH]; intros acc; [done|].
  cbn [collect_next]. pose proof (next_addresses g) as Hg.
  destruct (next g) as [[a|] g']; cbn [snd] in Hg.
  - specialize (IH (acc ++ [a])).
    destruct (collect_next mpas (acc ++ [a])) as [res rest]. cbn [snd] in *.
    by rewrite !fmap_cons, Hg, IH.
  - cbn [snd]. by rewrite !fmap_cons, Hg.
Qed.

(** One listing, while no cursor overflows: what [next] returns for every
    group, in the order of the groups. *)
Lemma collect_next_results mpas acc :
  Forall before_overflow mpas →
  ∃ l, collect_next mpas acc = (Some (acc ++ l), advance <$> mpas) ∧
       Forall2 (λ a g, (next g).1 = Some a) l mpas.
Proof.
  revert acc. induction mpas as [|g mpas IH]; intros acc Hall.
  { exists []. by rewrite app_nil_r. }
  apply Forall_cons in Hall as [[Hfit Hc] Hall].
  destruct (next_in_range_is_Some g Hfit Hc) as [a Ha].
  pose proof (next_addresses g) as Haddr. pose proof (next_nextPos g) as Hpos.
  rewrite wrap32_id in Hpos by (unfold in_range, min_int, max_int in *; lia).
  cbn [collect_next]. destruct (next g) as [r g'] eqn:Hnext. cbn [fst snd] in *.
  subst r. destruct (IH (acc ++ [a]) Hall) as (l & -> & Hl).
  exists (a :: l). split.
  - rewrite <- app_assoc. cbn [app fmap list_fmap]. do 2 f_equal.
    destruct g'; unfold advance; cbn in *. by subst.
  - constructor; [by rewrite Hnext|done].
Qed.

Lemma overflow_free_shifted k g :
  overflow_free k g → before_overflow (shifted k g).
Proof. intros (Hfit & Hc & Hk). unfold before_overflow, shifted, fits_int32 in *. cbn. lia. Qed.

Lemma overflow_free_pred k g : overflow_free (N.succ k) g → overflow_free k g.
Proof. intros (Hfit & Hc & Hk). unfold overflow_free. split_and!; [done..|lia]. Qed.

(** The groups [k] listings later, while no cursor overflows. *)
Lemma after_listings_shifted (k : N) m :
  Forall (overflow_free k) (multiPortsAddresses m) →
  multiPortsAddresses (GetListenAddresses (after_listings k m)).2 =
    shifted (N.succ k) <$> multiPortsAddresses m ∧
  multiPortsAddresses (after_listings k m) = shifted k <$> multiPortsAddresses m.
Proof.
  induction k as [|k IH] using N.peano_ind; intros Hall.
  - assert (Hnow : multiPortsAddresses (after_listings 0 m)
                   = shifted 0 <$> multiPortsAddresses m).
    { change (after_listings 0 m) with m. symmetry. etrans; [|apply list_fmap_id].
      apply list_fmap_ext. intros _ [l c] _. unfold shifted. cbn. f_equal. lia. }
    split; [|done].
    destruct (GetListenAddresses_collect (after_listings 0 m)) as (_ & _ & _ & ->).
    rewrite Hnow.
    destruct (collect_next_results (shifted 0 <$> multiPortsAddresses m) []) as (l & -> & _).
    { apply Forall_fmap. eapply Forall_impl; [done|]. apply overflow_free_shifted. }
    cbn [snd]. rewrite <- list_fmap_compose. apply list_fmap_ext.
    intros _ g _. unfold advance, shifted. cbn. f_equal. lia.
  - destruct IH as [IH _].
    { eapply Forall_impl; [done|]. apply overflow_free_pred. }
    rewrite after_listings_succ. split; [|done].
    destruct (GetListenAddresses_collect (GetListenAddresses (after_listings k m)).2)
      as (_ & _ & _ & ->).
    rewrite IH.
    destruct (collect_next_results (shifted (N.succ k) <$> multiPortsAddresses m) [])
      as (l & -> & _).
    { apply Forall_fmap. eapply Forall_impl; [done|]. apply overflow_free_shifted. }
    cbn [snd]. rewrite <- list_fmap_compose. apply list_fmap_ext.
    intros _ g _. unfold advance, shifted. cbn. f_equal. lia.
Qed.

(** The listing that follows [k] others, while no cursor overflows: for
    every group the address at its cursor plus [k + 1], modulo its size. *)
Lemma listing_before_overflow (k : N) m :
  Forall (overflow_free k) (multiPortsAddresses m) →
  ∃ l, (GetListenAddresses (after_listings k m)).1 = Some l ∧
       Forall2 (λ a g,
                  addresses g !!
                    Z.to_nat ((nextPos g + Z.of_N k + 1)
                                `mod` Z.of_nat (length (addresses g))) = Some a)
               l (multiPortsAddresses m).
Proof.
  intros Hall. destruct (after_listings_shifted k m Hall) as [_ Hgroups].
  destruct (GetListenAddresses_collect (after_listings k m)) as (-> & _).
  rewrite Hgroups.
  destruct (collect_next_results (shifted k <$> multiPortsAddresses m) []) as (l & -> & Hl).
  { apply Forall_fmap. eapply Forall_impl; [done|]. apply overflow_free_shifted. }
  exists l. split; [done|]. apply Forall2_fmap_r in Hl.
  revert Hall Hl. generalize (multiPortsAddresses m). intros gs Hall Hl.
  induction Hl as [|a g l gs Ha Hl IH]; [constructor|].
  apply Forall_cons in Hall as [Hg Hall]. constructor; [|by apply IH].
  unfold compose in Ha. rewrite next_in_range in Ha.
  - cbn [shifted addresses nextPos] in Ha. exact Ha.
  - by apply overflow_free_shifted.
  - by apply overflow_free_shifted.
Qed.

(** X9. A listing changes nothing but cursors: after any number of
    listings, panicking or not, the aggregate has the same multiplexers,
    the same Address Index and the same groups with the same addresses, so
    [GetConn] routes every address as before. *)
Theorem listings_keep_the_topology (k : N) m :
  muxes (after_listings k m) = muxes m ∧
  localAddrToMux (after_listings k m) = localAddrToMux m ∧
  addresses <$> multiPortsAddresses (after_listings k m) =
    addresses <$> multiPortsAddresses m ∧
  (∀ ufrag addr, GetConn (after_listings k m) ufrag addr = GetConn m ufrag addr).
Proof.
  assert (H3 : muxes (after_listings k m) = muxes m ∧
               localAddrToMux (after_listings k m) = localAddrToMux m ∧
               addresses <$> multiPortsAddresses (after_listings k m) =
                 addresses <$> multiPortsAddresses m).
  { induction k as [|k (IH1 & IH2 & IH3)] using N.peano_ind; [done|].
    rewrite after_listings_succ.
    destruct (GetListenAddresses_collect (after_listings k m)) as (_ & -> & -> & ->).
    by rewrite collect_next_addresses. }
  destruct H3 as (H1 & H2 & H3). split_and!; [done..|].
  intros ufrag addr. unfold GetConn. by rewrite H2.
Qed.

(** X10. Of an aggregate just constructed whose groups an [int32] counts,
    there is one list of the distinct IP strings among the reported
    addresses such that each of the first 2^31 - 1 listings returns exactly
    one address per IP of that list, in the order of that list: the order
    is the same for every listing.  The listing after [k] others reads, in
    the group of each IP, the address at index [k + 1] modulo the size of
    the group. *)
Theorem listing_one_address_per_ip {W} (h : Handler W) ms w m w' log :
  run h (NewMultiUDPMuxDefault ms) w = (Some m, w', log) →
  Forall (λ g, Z.of_nat (length (addresses g)) ≤ max_int) (multiPortsAddresses m) →
  ∃ ips : list string,
    NoDup ips ∧
    (∀ ip, ip ∈ ips ↔ ∃ addr, addr ∈ (reports log).*2 ∧ Addr_ip addr = Some ip) ∧
    ∀ k : N,
      Z.of_N k < max_int →
      ∃ l : list Addr,
        (GetListenAddresses (after_listings k m)).1 = Some l ∧
        Addr_ip <$> l = Some <$> ips ∧
        Forall2 (λ a ip,
                   with_ip ip (reports log).*2 !!
                     Z.to_nat ((Z.of_N k + 1)
                                 `mod` Z.of_nat (length (with_ip ip (reports log).*2)))
                   = Some a)
                l ips.
Proof.
  intros Hrun Hsize.
  destruct (constructed_groups h ms w m w' log Hrun) as (ips & Hnodup & Hips & Hgroups).
  exists ips. split_and!; [done| |].
  { intros ip. rewrite Hips, list_elem_of_fmap. split.
    - intros (a & Ha & Hin). by exists a.
    - intros (a & Hin & Ha). by exists a. }
  intros k Hk.
  assert (Hall : Forall (overflow_free k) (multiPortsAddresses m)).
  { rewrite Hgroups in Hsize |- *. apply Forall_fmap, Forall_forall.
    intros ip Hip. rewrite Forall_fmap, Forall_forall in Hsize.
    specialize (Hsize ip Hip). cbn in Hsize.
    assert (with_ip ip (reports log).*2 ≠ []) as Hne by (by apply with_ip_nonempty, Hips).
    unfold overflow_free, fits_int32. cbn.
    destruct (with_ip ip (reports log).*2); [done|]. cbn in *. lia. }
  destruct (listing_before_overflow k m Hall) as (l & Hl & Hclosed).
  rewrite Hgroups in Hclosed. apply Forall2_fmap_r in Hclosed.
  cbn [fresh_group addresses nextPos] in Hclosed.
  exists l. split_and!; [done| |].
  - clear -Hclosed. induction Hclosed as [|a ip l ips Ha _ IH]; [done|].
    rewrite !fmap_cons, IH. f_equal.
    eapply with_ip_Addr_ip, list_elem_of_lookup_2, Ha.
  - eapply Forall2_impl; [done|]. intros a ip Ha. cbn in Ha.
    by rewrite Z.add_0_l in Ha.
Qed.

(** X11. Every address reported at construction is listed: when its group
    has [N] addresses (and [N] is no more than an [int32] counts for every
    group), one of the first [N] listings contains it. *)
Theorem every_address_is_listed {W} (h : Handler W) ms w m w' log addr :
  run h (NewMultiUDPMuxDefault ms) w = (Some m, w', log) →
  Forall (λ g, Z.of_nat (length (addresses g)) ≤ max_int) (multiPortsAddresses m) →
  addr ∈ (reports log).*2 →
  ∃ (k : N) g l,
    g ∈ multiPortsAddresses m ∧ addr ∈ addresses g ∧
    Z.of_N k < Z.of_nat (length (addresses g)) ∧
    (GetListenAddresses (after_listings k m)).1 = Some l ∧ addr ∈ l.
Proof.
  intros Hrun Hsize Haddr.
  destruct (constructed_groups h ms w m w' log Hrun) as (ips & Hnodup & Hips & Hgroups).
  assert (∃ ip, Addr_ip addr = Some ip) as [ip Hip].
  { destruct (Addr_ip addr) as [ip|] eqn:Hip; [by eexists|].
    apply run_NewMultiUDPMuxDefault in Hrun as (_ & grp & Hreg & _).
    apply list_elem_of_fmap in Haddr as ([mux a'] & -> & Hin).
    assert (register_all (reports log) (∅, ∅) = None) as Hnone
      by (apply register_all_None; by exists (mux, a')).
    by rewrite Hnone in Hreg. }
  assert (Hin_ips : ip ∈ ips).
  { apply Hips. rewrite <- Hip. by apply list_elem_of_fmap_2. }
  set (g := fresh_group (with_ip ip (reports log).*2)).
  assert (Hg : g ∈ multiPortsAddresses m).
  { rewrite Hgroups.
    by apply (list_elem_of_fmap_2 (λ ip, fresh_group (with_ip ip (reports log).*2))). }
  assert (Hmem : addr ∈ addresses g).
  { cbn. unfold with_ip. by apply list_elem_of_filter. }
  apply list_elem_of_lookup in Hmem as [i Hi].
  pose proof (lookup_lt_Some _ _ _ Hi) as Hlt.
  assert (Hgsize : Z.of_nat (length (addresses g)) ≤ max_int).
  { by apply (proj1 (Forall_forall _ _) Hsize). }
  set (n := Z.of_nat (length (addresses g))) in *.
  set (k := Z.to_N ((Z.of_nat i + n - 1) `mod` n)).
  assert (Hkn : Z.of_N k < n).
  { unfold k. rewrite Z2N.id by (apply Z.mod_pos; lia).
    apply Z.mod_pos_bound. lia. }
  assert (Hidx : (Z.of_N k + 1) `mod` n = Z.of_nat i).
  { unfold k. rewrite Z2N.id by (apply Z.mod_pos; lia).
    rewrite Zplus_mod_idemp_l.
    replace (Z.of_nat i + n - 1 + 1) with (Z.of_nat i + 1 * n) by lia.
    rewrite Z.mod_add by lia. apply Z.mod_small. lia. }
  assert (Hall : Forall (overflow_free k) (multiPortsAddresses m)).
  { apply Forall_forall. intros g' Hg'.
    pose proof (proj1 (Forall_forall _ _) Hsize g' Hg') as Hs'.
    rewrite Hgroups in Hg'. apply list_elem_of_fmap in Hg' as (ip' & -> & Hip').
    assert (with_ip ip' (reports log).*2 ≠ []) as Hne by (by apply with_ip_nonempty, Hips).
    unfold overflow_free, fits_int32. cbn in *.
    destruct (with_ip ip' (reports log).*2); [done|]. cbn in *.
    unfold max_int in *. lia. }
  destruct (listing_before_overflow k m Hall) as (l & Hl & Hclosed).
  exists k, g, l. split_and!; [done|by eapply list_elem_of_lookup_2|done|done|].
  apply list_elem_of_lookup in Hg as [j Hj].
  destruct (Forall2_lookup_r _ _ _ _ _ Hclosed Hj) as (a & Ha & Hpick).
  cbn [g fresh_group addresses nextPos] in Hpick. fold g in Hpick.
  assert (a = addr) as ->; [|by eapply list_elem_of_lookup_2].
  change (length (with_ip ip (reports log).*2)) with (length (addresses g)) in Hpick.
  fold n in Hpick. rewrite Z.add_0_l, Hidx, Nat2Z.id in Hpick.
  cbn in Hi. congruence.
Qed.


(** ** The socket factory, case by case *)

Lemma net_answers_app l1 l2 : net_answers (l1 ++ l2) = net_answers l1 ++ net_answers l2.
Proof. apply omap_app. Qed.
Lemma resolution_answers_app l1 l2 :
  resolution_answers (l1 ++ l2) = resolution_answers l1 ++ resolution_answers l2.
Proof. apply omap_app. Qed.
Lemma nets_used_app l1 l2 : nets_used (l1 ++ l2) = nets_used l1 ++ nets_used l2.
Proof. apply omap_app. Qed.
Lemma read_buffer_calls_app l1 l2 :
  read_buffer_calls (l1 ++ l2) = read_buffer_calls l1 ++ read_buffer_calls l2.
Proof. apply omap_app. Qed.
Lemma write_buffer_calls_app l1 l2 :
  write_buffer_calls (l1 ++ l2) = write_buffer_calls l1 ++ write_buffer_calls l2.
Proof. apply omap_app. Qed.
Lemma new_muxes_app l1 l2 : new_muxes (l1 ++ l2) = new_muxes l1 ++ new_muxes l2.
Proof. apply omap_app. Qed.
Lemma loggers_used_app l1 l2 :
  loggers_used (l1 ++ l2) = loggers_used l1 ++ loggers_used l2.
Proof. apply omap_app. Qed.

Create Rewrite HintDb view.
Hint Rewrite net_answers_app resolution_answers_app nets_used_app
  read_buffer_calls_app write_buffer_calls_app new_muxes_app loggers_used_app
  listen_answers_app listen_addrs_app closed_conns_app created_muxes_app
  opened_app resolved_ips_app @app_nil_r @app_nil_l : view.

Lemma aside_log log :
  Forall aside log →
  net_answers log = [] ∧ resolution_answers log = [] ∧ nets_used log = [] ∧
  read_buffer_calls log = [] ∧ write_buffer_calls log = [] ∧ new_muxes log = [] ∧
  loggers_used log = [].
Proof.
  intros Hall.
  split_and!; apply omap_all_None; (eapply Forall_impl; [done|]);
    by intros e (? & ? & ? & ? & ? & ? & ?).
Qed.

Lemma run_close_conns_aside {W} (h : Handler W) conns w :
  Forall aside (run h (close_conns conns) w).2.
Proof.
  revert w. induction conns as [|conn conns IH]; intros w; [by constructor|].
  cbn [close_conns]. unfold mbind, Prog_bind. rewrite run_bind, run_call.
  specialize (IH (h _ (Conn_Close conn) w).2).
  destruct (run h (close_conns conns) _) as [[r w2] l2]. cbn [fst snd app] in *.
  by constructor.
Qed.

Lemma run_register_muxes_aside {W} (h : Handler W) ms st w :
  Forall aside (run h (register_muxes ms st) w).2.
Proof.
  revert st w. induction ms as [|mux ms IH]; intros st w; [by constructor|].
  cbn [register_muxes]. unfold mbind, Prog_bind. rewrite run_bind, run_call.
  destruct (register_addrs mux _ st) as [st'|].
  - specialize (IH st' (h _ (Mux_GetListenAddresses mux) w).2).
    destruct (run h (register_muxes ms st') _) as [[r w2] l2]. cbn [fst snd app] in *.
    by constructor.
  - cbn. by repeat constructor.
Qed.

Lemma run_NewMultiUDPMuxDefault_aside {W} (h : Handler W) ms w :
  Forall aside (run h (NewMultiUDPMuxDefault ms) w).2.
Proof.
  unfold NewMultiUDPMuxDefault, mbind, Prog_bind. rewrite run_bind.
  pose proof (run_register_muxes_aside h ms (∅, ∅) w) as Hs.
  destruct (run h (register_muxes ms (∅, ∅)) w) as [[[[idx grp]|] w1] l1];
    cbn [fst snd run] in *; [|done].
  by rewrite app_nil_r.
Qed.

Ltac case_goal_decide :=
  repeat match goal with
         | |- context [bool_decide ?P] => destruct (bool_decide P)
         end.

(** The buffers of a socket are set when, and only when, a positive size
    is configured; the answers are dropped. *)
Lemma run_tune_conn_view {W} (h : Handler W) p conn w :
  net_answers (run h (tune_conn p conn) w).2 = [] ∧
  resolution_answers (run h (tune_conn p conn) w).2 = [] ∧
  nets_used (run h (tune_conn p conn) w).2 = [] ∧
  new_muxes (run h (tune_conn p conn) w).2 = [] ∧
  loggers_used (run h (tune_conn p conn) w).2 = [] ∧
  read_buffer_calls (run h (tune_conn p conn) w).2 =
    (if bool_decide (0 < readBufferSize p) then [(conn, readBufferSize p)] else []) ∧
  write_buffer_calls (run h (tune_conn p conn) w).2 =
    (if bool_decide (0 < writeBufferSize p) then [(conn, writeBufferSize p)] else []).
Proof.
  unfold tune_conn, mbind, Prog_bind.
  do 2 case_bool_decide; cbn;
    repeat match goal with |- context [h ?X ?c ?w] => destruct (h X c w) end;
    cbn; by split_and!.
Qed.

Lemma run_ports_loop_view {W} (h : Handler W) p n ip ports conns w :
  net_answers (run h (ports_loop p n ip ports conns) w).2 = [] ∧
  resolution_answers (run h (ports_loop p n ip ports conns) w).2 = [] ∧
  new_muxes (run h (ports_loop p n ip ports conns) w).2 = [] ∧
  loggers_used (run h (ports_loop p n ip ports conns) w).2 = [] ∧
  Forall (λ x, x = Some n) (nets_used (run h (ports_loop p n ip ports conns) w).2) ∧
  read_buffer_calls (run h (ports_loop p n ip ports conns) w).2 =
    (if bool_decide (0 < readBufferSize p)
     then (λ c, (c, readBufferSize p)) <$> opened (run h (ports_loop p n ip ports conns) w).2
     else []) ∧
  write_buffer_calls (run h (ports_loop p n ip ports conns) w).2 =
    (if bool_decide (0 < writeBufferSize p)
     then (λ c, (c, writeBufferSize p)) <$> opened (run h (ports_loop p n ip ports conns) w).2
     else []).
Proof.
  revert conns w. induction ports as [|port ports IH]; intros conns w.
  { cbn. split_and!; try done; by case_goal_decide. }
  cbn [ports_loop]. unfold mbind, Prog_bind. rewrite run_bind, run_call.
  destruct (h _ (Net_ListenUDP n "udp" (mkUDPAddr ip port "")) w)
    as [[conn|listenErr] w1]; cbn [fst snd].
  2: { cbn. split_and!; try done; try (by repeat constructor).
       all: by case_goal_decide. }
  set (c := Net_ListenUDP n "udp" (mkUDPAddr ip port "")).
  rewrite run_bind.
  destruct (run_tune_conn h p conn w1) as [Ht1 Ht2].
  destruct (run_tune_conn_view h p conn w1) as (T1 & T2 & T3 & T4 & T5 & T6 & T7).
  destruct (run h (tune_conn p conn) w1) as [[rt wt] lt]. cbn [fst snd] in *.
  subst rt. apply silent_log in Ht2 as (_ & _ & Hs3 & _).
  destruct (IH (conns ++ [wrap_conn p conn]) wt) as (I1 & I2 & I3 & I4 & I5 & I6 & I7).
  destruct (run h (ports_loop p n ip ports (conns ++ [wrap_conn p conn])) wt)
    as [[r2 w2] l2]. cbn [fst snd] in *.
  assert (R1 : ∀ l, net_answers (Ev c (inl conn) :: l) = net_answers l) by done.
  assert (R2 : ∀ l, resolution_answers (Ev c (inl conn) :: l) = resolution_answers l) by done.
  assert (R3 : ∀ l, new_muxes (Ev c (inl conn) :: l) = new_muxes l) by done.
  assert (R4 : ∀ l, loggers_used (Ev c (inl conn) :: l) = loggers_used l) by done.
  assert (R5 : ∀ l, nets_used (Ev c (inl conn) :: l) = Some n :: nets_used l) by done.
  assert (R6 : ∀ l, read_buffer_calls (Ev c (inl conn) :: l) = read_buffer_calls l) by done.
  assert (R7 : ∀ l, write_buffer_calls (Ev c (inl conn) :: l) = write_buffer_calls l) by done.
  assert (R8 : ∀ l, opened (Ev c (inl conn) :: l) = conn :: opened l) by done.
  cbn [app]. rewrite R1, R2, R3, R4, R5, R6, R7, R8. autorewrite with view.
  rewrite T1, T2, T3, T4, T5, T6, T7, Hs3, I1, I2, I3, I4, I6, I7. cbn [app].
  split_and!; try done; try (by constructor).
  all: by case_goal_decide.
Qed.

Lemma run_ips_loop_view {W} (h : Handler W) p n ips ports conns w :
  net_answers (run h (ips_loop p n ips ports conns) w).2 = [] ∧
  resolution_answers (run h (ips_loop p n ips ports conns) w).2 = [] ∧
  new_muxes (run h (ips_loop p n ips ports conns) w).2 = [] ∧
  loggers_used (run h (ips_loop p n ips ports conns) w).2 = [] ∧
  Forall (λ x, x = Some n) (nets_used (run h (ips_loop p n ips ports conns) w).2) ∧
  read_buffer_calls (run h (ips_loop p n ips ports conns) w).2 =
    (if bool_decide (0 < readBufferSize p)
     then (λ c, (c, readBufferSize p)) <$> opened (run h (ips_loop p n ips ports conns) w).2
     else []) ∧
  write_buffer_calls (run h (ips_loop p n ips ports conns) w).2 =
    (if bool_decide (0 < writeBufferSize p)
     then (λ c, (c, writeBufferSize p)) <$> opened (run h (ips_loop p n ips ports conns) w).2
     else []).
Proof.
  revert conns w. induction ips as [|ip ips IH]; intros conns w.
  { cbn. split_and!; try done; by case_goal_decide. }
  cbn [ips_loop]. unfold mbind, Prog_bind. rewrite run_bind.
  destruct (run_ports_loop h p n ip ports conns w) as (err1 & H1 & _).
  destruct (run_ports_loop_view h p n ip ports conns w) as (P1 & P2 & P3 & P4 & P5 & P6 & P7).
  destruct (run h (ports_loop p n ip ports conns) w) as [[r1 w1] l1].
  cbn [fst snd] in *. subst r1. destruct err1 as [e|].
  - cbn [run fst snd]. autorewrite with view. by split_and!.
  - destruct (IH (conns ++ (wrap_conn p <$> opened l1)) w1) as (I1 & I2 & I3 & I4 & I5 & I6 & I7).
    destruct (run h (ips_loop p n ips ports (conns ++ (wrap_conn p <$> opened l1))) w1)
      as [[r2 w2] l2]. cbn [fst snd] in *.
    autorewrite with view. rewrite P1, P2, P3, P4, P6, P7, I1, I2, I3, I4, I6, I7.
    split_and!; try done; try (by apply Forall_app).
    all: case_goal_decide; by rewrite ?fmap_app.
Qed.


(** The multiplexers are created one per connection, in order, each with
    the configured logger and network, and handed back after [ms]. *)
Lemma run_make_muxes_view {W} (h : Handler W) p conns ms w :
  (run h (make_muxes p conns ms) w).1.1 =
    Some (ms ++ new_muxes (run h (make_muxes p conns ms) w).2) ∧
  length (new_muxes (run h (make_muxes p conns ms) w).2) = length conns ∧
  nets_used (run h (make_muxes p conns ms) w).2 = replicate (length conns) (net p) ∧
  loggers_used (run h (make_muxes p conns ms) w).2 = replicate (length conns) (logger p) ∧
  net_answers (run h (make_muxes p conns ms) w).2 = [] ∧
  resolution_answers (run h (make_muxes p conns ms) w).2 = [] ∧
  read_buffer_calls (run h (make_muxes p conns ms) w).2 = [] ∧
  write_buffer_calls (run h (make_muxes p conns ms) w).2 = [] ∧
  opened (run h (make_muxes p conns ms) w).2 = [] ∧
  resolved_ips (run h (make_muxes p conns ms) w).2 = [].
Proof.
  revert ms w. induction conns as [|conn conns IH]; intros ms w.
  { cbn. by rewrite app_nil_r. }
  cbn [make_muxes]. unfold mbind, Prog_bind. rewrite run_bind, run_call.
  destruct (h _ (Call_NewUDPMuxDefault (logger p) conn (net p)) w) as [mux w1].
  cbn [fst snd].
  destruct (IH (ms ++ [mux]) w1) as (I1 & I2 & I3 & I4 & I5 & I6 & I7 & I8 & I9 & I10).
  destruct (run h (make_muxes p conns (ms ++ [mux])) w1) as [[r w2] l2].
  cbn [fst snd app] in *.
  set (c := Call_NewUDPMuxDefault (logger p) conn (net p)).
  assert (R1 : new_muxes (Ev c mux :: l2) = mux :: new_muxes l2) by done.
  assert (R2 : nets_used (Ev c mux :: l2) = net p :: nets_used l2) by done.
  assert (R3 : loggers_used (Ev c mux :: l2) = logger p :: loggers_used l2) by done.
  assert (R4 : net_answers (Ev c mux :: l2) = net_answers l2) by done.
  assert (R5 : resolution_answers (Ev c mux :: l2) = resolution_answers l2) by done.
  assert (R6 : read_buffer_calls (Ev c mux :: l2) = read_buffer_calls l2) by done.
  assert (R7 : write_buffer_calls (Ev c mux :: l2) = write_buffer_calls l2) by done.
  assert (R8 : opened (Ev c mux :: l2) = opened l2) by done.
  assert (R9 : resolved_ips (Ev c mux :: l2) = resolved_ips l2) by done.
  rewrite R1, R2, R3, R4, R5, R6, R7, R8, R9.
  split_and!; try done.
  - by rewrite I1, <- app_assoc.
  - cbn. by rewrite I2.
  - cbn. by rewrite I3.
  - cbn. by rewrite I4.
Qed.

(** When the loop over the IPs ends without an error, it has asked for
    every (IP, port) pair. *)
Lemma run_ips_loop_complete {W} (h : Handler W) p n ips ports conns w conns' :
  (run h (ips_loop p n ips ports conns) w).1.1 = Some (conns', None) →
  listen_addrs (run h (ips_loop p n ips ports conns) w).2 = listen_targets ips ports ∧
  listen_answers (run h (ips_loop p n ips ports conns) w).2 =
    inl <$> opened (run h (ips_loop p n ips ports conns) w).2.
Proof.
  revert conns w. induction ips as [|ip ips IH]; intros conns w; [done|].
  cbn [ips_loop]. unfold mbind, Prog_bind. rewrite run_bind.
  destruct (run_ports_loop h p n ip ports conns w) as (err1 & H1 & H2 & H3 & H4 & _).
  destruct (run h (ports_loop p n ip ports conns) w) as [[r1 w1] l1].
  cbn [fst snd] in *. subst r1. destruct err1 as [e|]; [done|].
  rewrite app_nil_r in H2. specialize (H4 eq_refl).
  specialize (IH (conns ++ (wrap_conn p <$> opened l1)) w1).
  destruct (run h (ips_loop p n ips ports (conns ++ (wrap_conn p <$> opened l1))) w1)
    as [[r2 w2] l2]. cbn [fst snd] in *.
  intros Hr. destruct (IH Hr) as [IH1 IH2].
  autorewrite with view. rewrite listen_targets_cons, IH1, IH2, H2, fmap_app.
  split; [|done]. f_equal. rewrite H3, H2, length_fmap, H4.
  apply take_ge. by rewrite length_listen_targets_one.
Qed.

(** The function, case by case: the network comes from the options or
    from [stdnet.NewNet], which may fail; then the local IPs are resolved,
    which may fail; then lines 135-177 run. *)
Lemma run_NewMultiUDPMuxFromPorts_cases {W} (h : Handler W) ports opts w r w' log :
  run h (NewMultiUDPMuxFromPorts ports opts) w = (r, w', log) →
  let p := foldl (λ p opt, opt p) default_param opts in
  (∃ err, net p = None ∧
          log = [Ev Stdnet_NewNet (inr err)] ∧
          r = Some (None, Some (ErrWrap "failed to get create network" err))) ∨
  ∃ pre n w0,
    (net p = Some n ∧ pre = [] ∨ net p = None ∧ pre = [Ev Stdnet_NewNet (inl n)]) ∧
    let p' := UDPMuxFromPortWithNet (Some n) p in
    let c := Call_localInterfaces n (ifFilter p) (ipFilter p) (networks p)
               (includeLoopback p) in
    (∃ err, log = pre ++ [Ev c (inr err)] ∧ r = Some (None, Some err)) ∨
    (∃ ips rest,
       log = pre ++ Ev c (inl ips) :: rest ∧
       run h (open_and_aggregate p' n ips ports) w0 = (r, w', rest)).
Proof.
  unfold NewMultiUDPMuxFromPorts, mbind, Prog_bind.
  set (p := foldl (λ p opt, opt p) default_param opts).
  intros Hrun. cbv zeta.
  assert (Hmain : ∀ n w0 r0 w0' log0,
    run h (bind (call (Call_localInterfaces n
                   (ifFilter (UDPMuxFromPortWithNet (Some n) p))
                   (ipFilter (UDPMuxFromPortWithNet (Some n) p))
                   (networks (UDPMuxFromPortWithNet (Some n) p))
                   (includeLoopback (UDPMuxFromPortWithNet (Some n) p))))
              (λ ips, match ips with
                      | inr err => Ret (None, Some err)
                      | inl ips =>
                          open_and_aggregate (UDPMuxFromPortWithNet (Some n) p) n ips ports
                      end)) w0 = (r0, w0', log0) →
    (∃ err, log0 = [Ev (Call_localInterfaces n (ifFilter p) (ipFilter p) (networks p)
                          (includeLoopback p)) (inr err)] ∧
            r0 = Some (None, Some err)) ∨
    (∃ ips rest w1,
       log0 = Ev (Call_localInterfaces n (ifFilter p) (ipFilter p) (networks p)
                    (includeLoopback p)) (inl ips) :: rest ∧
       run h (open_and_aggregate (UDPMuxFromPortWithNet (Some n) p) n ips ports) w1
         = (r0, w0', rest))).
  { intros n w0 r0 w0' log0. rewrite run_bind, run_call.
    cbn [UDPMuxFromPortWithNet ifFilter ipFilter networks includeLoopback].
    destruct (h _ _ w0) as [[ips|err] w1]; cbn [fst snd].
    - destruct (run h (open_and_aggregate _ n ips ports) w1) as [[r1 w1'] l1] eqn:Hopen.
      intros [= <- <- <-]. right. by exists ips, l1, w1.
    - cbn. intros [= <- <- <-]. left. by exists err. }
  rewrite run_bind in Hrun.
  destruct (net p) as [n|] eqn:Hnet; cbn [run] in Hrun.
  - destruct (run h (bind _ _) w) as [[r0 w0'] log0] eqn:Hrest.
    injection Hrun as <- <- <-. right.
    destruct (Hmain _ _ _ _ _ Hrest) as [(err & -> & ->)|(ips & rest & w1 & -> & Hopen)].
    + exists [], n, w. split; [by left|]. left. by exists err.
    + exists [], n, w1. split; [by left|]. right. by exists ips, rest.
  - rewrite run_call in Hrun.
    destruct (h _ Stdnet_NewNet w) as [[n|err] w1]; cbn [fst snd] in Hrun.
    + destruct (run h (bind _ _) w1) as [[r0 w0'] log0] eqn:Hrest.
      injection Hrun as <- <- <-. right.
      destruct (Hmain _ _ _ _ _ Hrest) as [(err & -> & ->)|(ips & rest & w2 & -> & Hopen)].
      * exists [Ev Stdnet_NewNet (inl n)], n, w1. split; [by right|]. left. by exists err.
      * exists [Ev Stdnet_NewNet (inl n)], n, w2. split; [by right|]. right.
        by exists ips, rest.
    + cbn in Hrun. injection Hrun as <- <- <-. left. by exists err.
Qed.

(** Lines 135-177, case by case: the loop, then either the closing of
    what was opened or the creation of the multiplexers and of the
    aggregate. *)
Lemma run_open_and_aggregate_cases {W} (h : Handler W) p n ips ports w r w' log :
  run h (open_and_aggregate p n ips ports) w = (r, w', log) →
  ∃ opening err w1,
    run h (ips_loop p n ips ports []) w =
      (Some (wrap_conn p <$> opened opening, err), w1, opening) ∧
    ((∃ e closing, err = Some e ∧ log = opening ++ closing ∧
                   run h (close_conns (wrap_conn p <$> opened opening)) w1
                     = (Some (), w', closing) ∧
                   r = Some (None, Some e)) ∨
     (∃ making asking ms w2 rm,
        err = None ∧ log = opening ++ making ++ asking ∧
        run h (make_muxes p (wrap_conn p <$> opened opening) []) w1
          = (Some ms, w2, making) ∧
        run h (NewMultiUDPMuxDefault ms) w2 = (rm, w', asking) ∧
        r = (λ m, (Some m, None)) <$> rm)).
Proof.
  unfold open_and_aggregate, mbind, Prog_bind. rewrite run_bind.
  destruct (run_ips_loop h p n ips ports [] w) as (err & H1 & _).
  destruct (run h (ips_loop p n ips ports []) w) as [[r1 w1] l1].
  cbn [fst snd app] in *. subst r1. intros Hrun.
  exists l1, err, w1. split; [done|]. destruct err as [e|].
  - left. rewrite run_bind in Hrun.
    destruct (run_close_conns h (wrap_conn p <$> opened l1) w1) as (C1 & _).
    destruct (run h (close_conns _) w1) as [[r2 w2] l2]. cbn [fst snd run] in *.
    subst r2. injection Hrun as <- <- <-. exists e, l2. by rewrite app_nil_r.
  - right. rewrite run_bind in Hrun.
    destruct (run_make_muxes_view h p (wrap_conn p <$> opened l1) [] w1) as (M1 & _).
    destruct (run h (make_muxes _ _ _) w1) as [[rms w2] l2]. cbn [fst snd] in *.
    subst rms. cbn [app] in Hrun. rewrite run_bind in Hrun.
    destruct (run h (NewMultiUDPMuxDefault (new_muxes l2)) w2) as [[rm w3] l3] eqn:Hnew.
    exists l2, l3, (new_muxes l2), w2, rm.
    destruct rm as [m|]; cbn [run] in Hrun; injection Hrun as <- <- <-;
      by rewrite ?app_nil_r.
Qed.


Lemma opened_no_answers log : listen_answers log = [] → opened log = [].
Proof. unfold opened. by intros ->. Qed.

Lemma length_opened_all log :
  listen_answers log = inl <$> opened log → length (opened log) = length (listen_addrs log).
Proof. intros Heq. by rewrite length_listen_addrs, Heq, length_fmap. Qed.

(** Lines 135-177 call neither [stdnet.NewNet] nor [localInterfaces], go
    through the one network, set the buffers of exactly the sockets
    opened, and create every multiplexer with the configured logger. *)
Lemma run_open_and_aggregate_view {W} (h : Handler W) p n ips ports w r w' log :
  run h (open_and_aggregate p n ips ports) w = (r, w', log) →
  net_answers log = [] ∧ resolution_answers log = [] ∧ resolved_ips log = [] ∧
  Forall (λ x, x = Some n ∨ x = net p) (nets_used log) ∧
  read_buffer_calls log =
    (if bool_decide (0 < readBufferSize p)
     then (λ c, (c, readBufferSize p)) <$> opened log else []) ∧
  write_buffer_calls log =
    (if bool_decide (0 < writeBufferSize p)
     then (λ c, (c, writeBufferSize p)) <$> opened log else []) ∧
  loggers_used log = replicate (length (new_muxes log)) (logger p).
Proof.
  intros (opening & err & w1 & Hloop & Hcases)%run_open_and_aggregate_cases.
  destruct (run_ips_loop_view h p n ips ports [] w) as (V1 & V2 & V3 & V4 & V5 & V6 & V7).
  destruct (run_ips_loop h p n ips ports [] w) as (err' & _ & _ & _ & _ & _ & V8).
  rewrite Hloop in V1, V2, V3, V4, V5, V6, V7, V8. cbn [snd] in *.
  destruct Hcases as [(e & closing & -> & -> & Hclose & ->)
                     |(making & asking & ms & w2 & rm & -> & -> & Hmake & Hnew & ->)].
  - pose proof (run_close_conns_aside h (wrap_conn p <$> opened opening) w1) as Ha.
    destruct (run_close_conns h (wrap_conn p <$> opened opening) w1)
      as (_ & _ & _ & C4 & _ & _ & C7).
    rewrite Hclose in Ha, C4, C7. cbn [snd] in *.
    apply aside_log in Ha as (A1 & A2 & A3 & A4 & A5 & A6 & A7).
    apply opened_no_answers in C4.
    autorewrite with view. rewrite V1, V2, V3, V4, V6, V7, V8, A1, A2, A3, A4, A5, A6, A7, C4, C7.
    autorewrite with view. split_and!; try done.
    eapply Forall_impl; [done|]. intros x ->. by left.
  - destruct (run_make_muxes_view h p (wrap_conn p <$> opened opening) [] w1)
      as (_ & M2 & M3 & M4 & M5 & M6 & M7 & M8 & M9 & M10).
    rewrite Hmake in M2, M3, M4, M5, M6, M7, M8, M9, M10. cbn [snd] in *.
    pose proof (run_NewMultiUDPMuxDefault_aside h ms w2) as Ha.
    pose proof (run_NewMultiUDPMuxDefault_silent h ms w2) as Hs.
    rewrite Hnew in Ha, Hs. cbn [snd] in *.
    apply aside_log in Ha as (A1 & A2 & A3 & A4 & A5 & A6 & A7).
    apply silent_log in Hs as (_ & _ & S3 & _ & _ & S6).
    autorewrite with view.
    rewrite V1, V2, V3, V4, V6, V7, V8, A1, A2, A3, A4, A5, A6, A7, S3, S6,
      M3, M4, M5, M6, M7, M8, M9, M10.
    autorewrite with view. rewrite M2. split_and!; try done.
    apply Forall_app. split.
    + eapply Forall_impl; [done|]. intros x ->. by left.
    + apply Forall_replicate. by right.
Qed.

Lemma length_listen_targets ips ports :
  length (listen_targets ips ports) = (length ips * length ports)%nat.
Proof.
  induction ips as [|ip ips IH]; [done|].
  rewrite listen_targets_cons, length_app, IH, length_listen_targets_one. done.
Qed.

(** Lines 135-177, when they hand back an aggregate. *)
Lemma run_open_and_aggregate_success {W} (h : Handler W) p n ips ports w m err w' log :
  run h (open_and_aggregate p n ips ports) w = (Some (Some m, err), w', log) →
  err = None ∧
  listen_addrs log = listen_targets ips ports ∧
  listen_answers log = inl <$> opened log ∧
  closed_conns log = [] ∧
  created_muxes log = wrap_conn p <$> opened log ∧
  muxes m = new_muxes log ∧
  length (new_muxes log) = length (listen_targets ips ports).
Proof.
  intros (opening & err' & w1 & Hloop & Hcases)%run_open_and_aggregate_cases.
  destruct Hcases as [(e & closing & _ & _ & _ & [=])
                     |(making & asking & ms & w2 & rm & -> & -> & Hmake & Hnew & Hr)].
  destruct rm as [m'|]; [|done]. injection Hr as -> ->.
  destruct (run_ips_loop_complete h p n ips ports [] w (wrap_conn p <$> opened opening))
    as [L1 L2]; [by rewrite Hloop|].
  destruct (run_ips_loop h p n ips ports [] w) as (_ & _ & _ & _ & L4 & L5 & _).
  rewrite Hloop in L1, L2, L4, L5. cbn [snd] in *.
  destruct (run_make_muxes h p (wrap_conn p <$> opened opening) [] w1)
    as (_ & K2 & K3 & K4 & K5 & _).
  destruct (run_make_muxes_view h p (wrap_conn p <$> opened opening) [] w1)
    as (M1 & M2 & _).
  rewrite Hmake in K2, K3, K4, K5, M1, M2. cbn [fst snd app] in *.
  injection M1 as ->.
  pose proof (run_NewMultiUDPMuxDefault_aside h (new_muxes making) w2) as Ha.
  pose proof (run_NewMultiUDPMuxDefault_silent h (new_muxes making) w2) as Hs.
  rewrite Hnew in Ha, Hs. cbn [snd] in *.
  apply aside_log in Ha as (_ & _ & _ & _ & _ & A6 & _).
  apply silent_log in Hs as (S1 & S2 & S3 & S4 & S5 & _).
  apply run_NewMultiUDPMuxDefault in Hnew as (_ & _ & _ & Hmuxes & _).
  apply opened_no_answers in K3 as K3'.
  autorewrite with view.
  rewrite L1, L2, L4, L5, K2, K3, K3', K4, K5, S1, S2, S3, S4, S5, A6.
  autorewrite with view.
  assert (new_muxes opening = []) as ->.
  { by destruct (run_ips_loop_view h p n ips ports [] w) as (_ & _ & V3 & _);
      rewrite Hloop in V3. }
  cbn [app]. split_and!; try done.
  rewrite M2, length_fmap, <- L1. by apply length_opened_all.
Qed.


(** X12. When no network is configured and [stdnet.NewNet] fails, nothing
    else is called, neither the resolution of the local IPs nor any
    socket, and the function returns nil with that error wrapped as
    "failed to get create network". *)
Theorem network_creation_failure {W} (h : Handler W) ports opts w r w' log err :
  run h (NewMultiUDPMuxFromPorts ports opts) w = (r, w', log) →
  inr err ∈ net_answers log →
  net (foldl (λ p opt, opt p) default_param opts) = None ∧
  log = [Ev Stdnet_NewNet (inr err)] ∧
  r = Some (None, Some (ErrWrap "failed to get create network" err)).
Proof.
  intros Hrun.
  destruct (run_NewMultiUDPMuxFromPorts_cases h ports opts w r w' log Hrun)
    as [(err' & Hnet & -> & ->)|(pre & n & w0 & Hpre & Hrest)].
  - cbn. intros [= ->]%list_elem_of_singleton. done.
  - cbv zeta in Hrest.
    assert (Hpre' : net_answers pre = [] ∨ net_answers pre = [inl n]).
    { destruct Hpre as [[_ ->]|[_ ->]]; [by left|by right]. }
    destruct Hrest as [(e & -> & _)|(ips & rest & -> & Hopen)].
    + rewrite net_answers_app. cbn.
      destruct Hpre' as [-> | ->]; cbn; [by intros ?%elem_of_nil|].
      by intros [=]%list_elem_of_singleton.
    + apply run_open_and_aggregate_view in Hopen as (V1 & _).
      rewrite net_answers_app.
      change (net_answers (Ev _ (inl ips) :: rest)) with (net_answers rest).
      rewrite V1, app_nil_r.
      destruct Hpre' as [-> | ->]; cbn; [by intros ?%elem_of_nil|].
      by intros [=]%list_elem_of_singleton.
Qed.

(** X13. When the resolution of the local IPs fails, no socket is opened
    or closed and no multiplexer is created: the failed [localInterfaces]
    is the last call made, and the function returns nil with its error,
    unwrapped. *)
Theorem resolution_failure {W} (h : Handler W) ports opts w r w' log err :
  run h (NewMultiUDPMuxFromPorts ports opts) w = (r, w', log) →
  inr err ∈ resolution_answers log →
  r = Some (None, Some err) ∧
  resolution_answers log = [inr err] ∧
  (∃ pre (c : Call (list IP + error)),
     log = pre ++ [Ev c (inr err)] ∧
     resolution_answer (Ev c (inr err)) = Some (inr err)) ∧
  listen_addrs log = [] ∧ closed_conns log = [] ∧ created_muxes log = [].
Proof.
  intros Hrun.
  destruct (run_NewMultiUDPMuxFromPorts_cases h ports opts w r w' log Hrun)
    as [(err' & Hnet & -> & ->)|(pre & n & w0 & Hpre & Hrest)].
  - cbn. by intros ?%elem_of_nil.
  - cbv zeta in Hrest.
    assert (Hpre' : resolution_answers pre = [] ∧ listen_addrs pre = [] ∧
                    closed_conns pre = [] ∧ created_muxes pre = []).
    { by destruct Hpre as [[_ ->]|[_ ->]]. }
    destruct Hpre' as (P1 & P2 & P3 & P4).
    destruct Hrest as [(e & -> & ->)|(ips & rest & -> & Hopen)].
    + autorewrite with view. rewrite P1, P2, P3, P4. cbn.
      intros [= ->]%list_elem_of_singleton. split_and!; try done.
      eexists pre, _. by split.
    + apply run_open_and_aggregate_view in Hopen as (_ & V2 & _).
      rewrite resolution_answers_app.
      change (resolution_answers (Ev _ (inl ips) :: rest))
        with (inl ips :: resolution_answers rest).
      rewrite P1, V2. cbn. by intros [=]%list_elem_of_singleton.
Qed.

(** X14. Unless [stdnet.NewNet] fails, the local IPs are resolved exactly
    once, with the interface filter, the IP filter, the networks and the
    loopback flag of the options, and every call goes through one network:
    the configured one, in which case [stdnet.NewNet] is not called, or
    else the one [stdnet.NewNet] returned, called once and first. *)
Theorem one_network_one_resolution {W} (h : Handler W) ports opts w r w' log :
  run h (NewMultiUDPMuxFromPorts ports opts) w = (r, w', log) →
  (∀ err, inr err ∉ net_answers log) →
  let p := foldl (λ p opt, opt p) default_param opts in
  ∃ pre n answer rest,
    log = pre ++ Ev (Call_localInterfaces n (ifFilter p) (ipFilter p) (networks p)
                       (includeLoopback p)) answer :: rest ∧
    (net p = Some n ∧ pre = [] ∨ net p = None ∧ pre = [Ev Stdnet_NewNet (inl n)]) ∧
    net_answers log = net_answers pre ∧
    resolution_answers log = [answer] ∧
    Forall (λ x, x = Some n) (nets_used log).
Proof.
  intros Hrun Hok p.
  destruct (run_NewMultiUDPMuxFromPorts_cases h ports opts w r w' log Hrun)
    as [(err' & Hnet & -> & ->)|(pre & n & w0 & Hpre & Hrest)].
  { exfalso. apply (Hok err'). cbn. left. }
  cbv zeta in Hrest. fold p in Hpre, Hrest.
  assert (Hpre' : resolution_answers pre = [] ∧ nets_used pre = []).
  { by destruct Hpre as [[_ ->]|[_ ->]]. }
  destruct Hpre' as (P1 & P2).
  destruct Hrest as [(e & -> & ->)|(ips & rest & -> & Hopen)].
  - exists pre, n, (inr e), []. autorewrite with view. rewrite P1, P2.
    split_and!; try done. by repeat constructor.
  - exists pre, n, (inl ips), rest.
    apply run_open_and_aggregate_view in Hopen as (V1 & V2 & _ & V4 & _).
    autorewrite with view.
    change (net_answers (Ev _ (inl ips) :: rest)) with (net_answers rest).
    change (resolution_answers (Ev _ (inl ips) :: rest))
      with (inl ips :: resolution_answers rest).
    change (nets_used (Ev _ (inl ips) :: rest)) with (Some n :: nets_used rest).
    rewrite P1, P2, V1, V2. autorewrite with view.
    split_and!; try done. constructor; [done|].
    eapply Forall_impl; [done|]. by intros x [-> | ->].
Qed.

(** The function, when it hands back an aggregate. *)
Lemma run_NewMultiUDPMuxFromPorts_success {W} (h : Handler W) ports opts w m err w' log :
  run h (NewMultiUDPMuxFromPorts ports opts) w = (Some (Some m, err), w', log) →
  let p := foldl (λ p opt, opt p) default_param opts in
  err = None ∧
  ∃ ips,
    resolution_answers log = [inl ips] ∧
    listen_addrs log = listen_targets ips ports ∧
    listen_answers log = inl <$> opened log ∧
    closed_conns log = [] ∧
    created_muxes log = wrap_conn p <$> opened log ∧
    muxes m = new_muxes log ∧
    length (muxes m) = (length ips * length ports)%nat.
Proof.
  intros Hrun p.
  destruct (run_NewMultiUDPMuxFromPorts_cases h ports opts w _ w' log Hrun)
    as [(err' & _ & _ & [=])|(pre & n & w0 & Hpre & Hrest)].
  cbv zeta in Hrest. fold p in Hpre, Hrest.
  destruct Hrest as [(e & _ & [=])|(ips & rest & -> & Hopen)].
  assert (Hpre' : resolution_answers pre = [] ∧ listen_addrs pre = [] ∧
                  listen_answers pre = [] ∧ opened pre = [] ∧
                  closed_conns pre = [] ∧ created_muxes pre = [] ∧ new_muxes pre = []).
  { by destruct Hpre as [[_ ->]|[_ ->]]. }
  destruct Hpre' as (P1 & P2 & P3 & P4 & P5 & P6 & P7).
  pose proof Hopen as (_ & V2 & _)%run_open_and_aggregate_view.
  apply run_open_and_aggregate_success in Hopen as (-> & S1 & S2 & S3 & S4 & S5 & S6).
  split; [done|]. exists ips. autorewrite with view.
  set (c := Call_localInterfaces n (ifFilter p) (ipFilter p) (networks p) (includeLoopback p)).
  change (resolution_answers (Ev c (inl ips) :: rest)) with (inl ips :: resolution_answers rest).
  change (listen_addrs (Ev c (inl ips) :: rest)) with (listen_addrs rest).
  change (listen_answers (Ev c (inl ips) :: rest)) with (listen_answers rest).
  change (opened (Ev c (inl ips) :: rest)) with (opened rest).
  change (closed_conns (Ev c (inl ips) :: rest)) with (closed_conns rest).
  change (created_muxes (Ev c (inl ips) :: rest)) with (created_muxes rest).
  change (new_muxes (Ev c (inl ips) :: rest)) with (new_muxes rest).
  rewrite P1, P2, P3, P4, P5, P6, P7, V2, S1, S2, S3, S4. cbn [app].
  rewrite wrap_conn_with_net. split_and!; try done.
  by rewrite S5, S6, length_listen_targets.
Qed.

(** X15. When the function hands back an aggregate, the error is nil, a
    socket was opened for every (IP, port) pair, IP by IP and port by port,
    none was closed, one multiplexer was created for each socket in the
    order opened (on its batch wrapper when a positive batch size is
    configured), and these multiplexers, in that order, are the
    constituents of the aggregate. *)
Theorem construction_from_ports_success {W} (h : Handler W) ports opts w m err w' log :
  run h (NewMultiUDPMuxFromPorts ports opts) w = (Some (Some m, err), w', log) →
  let p := foldl (λ p opt, opt p) default_param opts in
  err = None ∧
  ∃ ips,
    resolution_answers log = [inl ips] ∧
    listen_addrs log = listen_targets ips ports ∧
    listen_answers log = inl <$> opened log ∧
    closed_conns log = [] ∧
    created_muxes log = wrap_conn p <$> opened log ∧
    muxes m = new_muxes log ∧
    length (muxes m) = (length ips * length ports)%nat.
Proof. apply run_NewMultiUDPMuxFromPorts_success. Qed.


Lemma listen_targets_no_port ips : listen_targets ips [] = [].
Proof. induction ips as [|ip ips IH]; [done|]. by rewrite listen_targets_cons, IH. Qed.

(** X16. With no port asked for, or no local IP resolved, the function
    opens no socket, creates no multiplexer and returns, without an error,
    the aggregate of no multiplexer. *)
Theorem no_pair_no_multiplexer {W} (h : Handler W) ports opts w r w' log ips :
  run h (NewMultiUDPMuxFromPorts ports opts) w = (r, w', log) →
  resolution_answers log = [inl ips] →
  ips = [] ∨ ports = [] →
  r = Some (Some empty_aggregate, None) ∧
  listen_addrs log = [] ∧ closed_conns log = [] ∧ new_muxes log = [].
Proof.
  intros Hrun Hres Hnone.
  destruct (run_NewMultiUDPMuxFromPorts_cases h ports opts w r w' log Hrun)
    as [(err' & _ & -> & _)|(pre & n & w0 & Hpre & Hrest)]; [done|].
  cbv zeta in Hrest.
  assert (Hpre' : resolution_answers pre = [] ∧ listen_addrs pre = [] ∧
                  closed_conns pre = [] ∧ new_muxes pre = []).
  { by destruct Hpre as [[_ ->]|[_ ->]]. }
  destruct Hpre' as (P1 & P2 & P3 & P4).
  destruct Hrest as [(e & -> & _)|(ips' & rest & -> & Hopen)].
  { rewrite resolution_answers_app, P1 in Hres. done. }
  pose proof Hopen as (_ & V2 & _)%run_open_and_aggregate_view.
  rewrite resolution_answers_app, P1 in Hres.
  change (resolution_answers (Ev _ (inl ips') :: rest))
    with (inl ips' :: resolution_answers rest) in Hres.
  rewrite V2 in Hres. injection Hres as ->.
  assert (Htargets : listen_targets ips ports = []).
  { destruct Hnone as [-> | ->]; [done|apply listen_targets_no_port]. }
  apply run_open_and_aggregate_cases in Hopen as (opening & err & w1 & Hloop & Hcases).
  destruct (run_ips_loop h (UDPMuxFromPortWithNet (Some n)
              (foldl (λ p opt, opt p) default_param opts)) n ips ports [] w0)
    as (err' & L1 & L2 & L3 & L4 & _).
  destruct (run_ips_loop_view h (UDPMuxFromPortWithNet (Some n)
              (foldl (λ p opt, opt p) default_param opts)) n ips ports [] w0)
    as (_ & _ & L5 & _).
  rewrite Hloop in L1, L2, L3, L4, L5. cbn [fst snd] in *.
  assert (err' = err) as -> by (cbn in L1; congruence). clear L1.
  rewrite Htargets, take_nil in L3.
  assert (Hans : listen_answers opening = []).
  { apply length_zero_iff_nil. by rewrite <- length_listen_addrs, L3. }
  apply opened_no_answers in Hans as Hopened. rewrite Hans, Hopened in L2.
  rewrite Hopened in Hloop, Hcases. cbn [fmap list_fmap] in Hloop, Hcases.
  destruct Hcases as [(e & closing & -> & _)
                     |(making & asking & ms & w2 & rm & -> & -> & Hmake & Hnew & ->)].
  { done. }
  cbn in Hmake. injection Hmake as <- <- <-.
  unfold NewMultiUDPMuxDefault in Hnew. cbn in Hnew.
  rewrite range_ipToAddrs_empty in Hnew. injection Hnew as <- <- <-.
  autorewrite with view.
  change (listen_addrs (Ev _ (inl ips) :: opening)) with (listen_addrs opening).
  change (closed_conns (Ev _ (inl ips) :: opening)) with (closed_conns opening).
  change (new_muxes (Ev _ (inl ips) :: opening)) with (new_muxes opening).
  rewrite P2, P3, P4, L3, L4, L5. done.
Qed.

(** X17. Buffer sizes are applied to the sockets themselves: when the
    configured read (write) buffer size is positive, [SetReadBuffer]
    ([SetWriteBuffer]) is called with it once on every socket opened, in
    the order opened, and on nothing else; when it is not positive the
    call is never made.  What these calls answer has no effect. *)
Theorem buffers_set_on_opened_sockets {W} (h : Handler W) ports opts w r w' log :
  run h (NewMultiUDPMuxFromPorts ports opts) w = (r, w', log) →
  let p := foldl (λ p opt, opt p) default_param opts in
  read_buffer_calls log =
    (if bool_decide (0 < readBufferSize p)
     then (λ c, (c, readBufferSize p)) <$> opened log else []) ∧
  write_buffer_calls log =
    (if bool_decide (0 < writeBufferSize p)
     then (λ c, (c, writeBufferSize p)) <$> opened log else []).
Proof.
  intros Hrun p.
  destruct (run_NewMultiUDPMuxFromPorts_cases h ports opts w r w' log Hrun)
    as [(err' & _ & -> & _)|(pre & n & w0 & Hpre & Hrest)].
  { cbn. by case_goal_decide. }
  cbv zeta in Hrest. fold p in Hpre, Hrest.
  assert (Hpre' : read_buffer_calls pre = [] ∧ write_buffer_calls pre = [] ∧
                  opened pre = []).
  { by destruct Hpre as [[_ ->]|[_ ->]]. }
  destruct Hpre' as (P1 & P2 & P3).
  destruct Hrest as [(e & -> & _)|(ips & rest & -> & Hopen)].
  - autorewrite with view. rewrite P1, P2, P3. cbn. by case_goal_decide.
  - apply run_open_and_aggregate_view in Hopen as (_ & _ & _ & _ & V5 & V6 & _).
    cbn [UDPMuxFromPortWithNet readBufferSize writeBufferSize] in V5, V6.
    autorewrite with view.
    change (read_buffer_calls (Ev _ (inl ips) :: rest)) with (read_buffer_calls rest).
    change (write_buffer_calls (Ev _ (inl ips) :: rest)) with (write_buffer_calls rest).
    change (opened (Ev _ (inl ips) :: rest)) with (opened rest).
    by rewrite P1, P2, P3, V5, V6.
Qed.

(** X18. [NewMultiUDPMuxFromPort], when it hands back an aggregate, has
    opened exactly one socket per resolved IP, on the given port, and the
    aggregate has one multiplexer per resolved IP. *)
Theorem one_socket_per_ip {W} (h : Handler W) port opts w m err w' log :
  run h (NewMultiUDPMuxFromPort port opts) w = (Some (Some m, err), w', log) →
  err = None ∧
  ∃ ips,
    resolution_answers log = [inl ips] ∧
    listen_addrs log = (λ ip, {| udp_IP := ip; udp_Port := port; udp_Zone := "" |}) <$> ips ∧
    length (muxes m) = length ips.
Proof.
  unfold NewMultiUDPMuxFromPort. intros Hrun.
  apply run_NewMultiUDPMuxFromPorts_success in Hrun
    as (-> & ips & Hres & Haddrs & _ & _ & _ & _ & Hlen).
  split; [done|]. exists ips. split_and!; [done| |cbn in Hlen; lia].
  rewrite Haddrs. clear. induction ips as [|ip ips IH]; [done|].
  by rewrite listen_targets_cons, IH.
Qed.

Lemma errors_in_app {A} (l1 l2 : list (A + error)) :
  errors_in (l1 ++ l2) = errors_in l1 ++ errors_in l2.
Proof. apply omap_app. Qed.

Lemma errors_in_inl {A} (l : list A) : errors_in (inl <$> l : list (A + error)) = [].
Proof. unfold errors_in. apply omap_all_None, Forall_fmap, Forall_forall. done. Qed.

(** X19. When the function returns, it returns an error exactly when
    [stdnet.NewNet], [localInterfaces] or a [ListenUDP] failed: at most one
    of these calls fails in a run, since nothing of the kind is called
    after it, and its error is the one returned, wrapped in the case of
    [stdnet.NewNet].  What is returned is either an aggregate and no error,
    or an error and no aggregate. *)
Theorem error_iff_collaborator_failure {W} (h : Handler W) ports opts w rm re w' log :
  run h (NewMultiUDPMuxFromPorts ports opts) w = (Some (rm, re), w', log) →
  (ErrWrap "failed to get create network" <$> errors_in (net_answers log))
    ++ errors_in (resolution_answers log) ++ errors_in (listen_answers log) =
    match re with
    | Some e => [e]
    | None => []
    end ∧
  (is_Some rm ↔ re = None).
Proof.
  intros Hrun.
  remember (Some (rm, re)) as r eqn:Hr.
  destruct (run_NewMultiUDPMuxFromPorts_cases h ports opts w r w' log Hrun)
    as [(err' & _ & -> & ->)|(pre & n & w0 & Hpre & Hrest)].
  { injection Hr as <- <-. split; [done|]. split; [by intros [? ?]|done]. }
  cbv zeta in Hrest.
  assert (Hpre' : errors_in (net_answers pre) = [] ∧ resolution_answers pre = [] ∧
                  listen_answers pre = []).
  { by destruct Hpre as [[_ ->]|[_ ->]]. }
  destruct Hpre' as (P1 & P2 & P3).
  destruct Hrest as [(e & -> & ->)|(ips & rest & -> & Hopen)].
  { injection Hr as <- <-. split; [|split; [by intros [? ?]|done]].
    autorewrite with view. rewrite errors_in_app, P1, P2, P3. done. }
  pose proof Hopen as (V1 & V2 & _)%run_open_and_aggregate_view.
  autorewrite with view.
  change (net_answers (Ev _ (inl ips) :: rest)) with (net_answers rest).
  change (resolution_answers (Ev _ (inl ips) :: rest))
    with (inl ips :: resolution_answers rest).
  change (listen_answers (Ev _ (inl ips) :: rest)) with (listen_answers rest).
  rewrite errors_in_app, P1, P2, P3, V1, V2.
  change (errors_in [] : list error) with (@nil error).
  change (errors_in ([] ++ [inl ips]) : list error) with (@nil error).
  cbn [app fmap list_fmap].
  apply run_open_and_aggregate_cases in Hopen as (opening & err & w1 & Hloop & Hcases).
  destruct (run_ips_loop h (UDPMuxFromPortWithNet (Some n)
              (foldl (λ p opt, opt p) default_param opts)) n ips ports [] w0)
    as (err' & L1 & L2 & _).
  rewrite Hloop in L1, L2. cbn [fst snd] in *.
  assert (err' = err) as -> by (cbn in L1; congruence). clear L1.
  destruct Hcases as [(e & closing & -> & -> & Hclose & ->)
                     |(making & asking & ms & w2 & rn & -> & -> & Hmake & Hnew & ->)].
  - match type of Hclose with
    | run _ (close_conns ?cs) _ = _ =>
        destruct (run_close_conns h cs w1) as (_ & _ & _ & C4 & _)
    end.
    rewrite Hclose in C4. cbn [snd] in C4.
    rewrite listen_answers_app, C4, app_nil_r, L2.
    injection Hr as <- <-. split; [|split; [by intros [? ?]|done]].
    by rewrite errors_in_app, errors_in_inl.
  - match type of Hmake with
    | run _ (make_muxes ?p ?cs _) _ = _ =>
        destruct (run_make_muxes h p cs [] w1) as (_ & _ & K3 & _)
    end.
    rewrite Hmake in K3. cbn [snd] in K3.
    pose proof (run_NewMultiUDPMuxDefault_silent h ms w2) as Hs.
    rewrite Hnew in Hs. cbn [snd] in Hs. apply silent_log in Hs as (S1 & _).
    rewrite !listen_answers_app, K3, S1, !app_nil_r, L2, app_nil_r.
    rewrite errors_in_inl.
    destruct rn as [m|]; [|done].
    injection Hr as <- <-. split; [done|]. split; [done|by eexists].
Qed.


(** X21. Every multiplexer the function creates gets the logger of the
    options (nil when none is given), and one is created per answer of
    [NewUDPMuxDefault], whatever else happens in the run. *)
Theorem muxes_created_with_logger {W} (h : Handler W) ports opts w r w' log :
  run h (NewMultiUDPMuxFromPorts ports opts) w = (r, w', log) →
  loggers_used log =
    replicate (length (new_muxes log))
              (logger (foldl (λ p opt, opt p) default_param opts)).
Proof.
  intros Hrun.
  destruct (run_NewMultiUDPMuxFromPorts_cases h ports opts w r w' log Hrun)
    as [(err' & _ & -> & _)|(pre & n & w0 & Hpre & Hrest)]; [done|].
  cbv zeta in Hrest.
  assert (Hpre' : loggers_used pre = [] ∧ new_muxes pre = []).
  { by destruct Hpre as [[_ ->]|[_ ->]]. }
  destruct Hpre' as (P1 & P2).
  destruct Hrest as [(e & -> & _)|(ips & rest & -> & Hopen)].
  - autorewrite with view. by rewrite P1, P2.
  - apply run_open_and_aggregate_view in Hopen as (_ & _ & _ & _ & _ & _ & V7).
    cbn [UDPMuxFromPortWithNet logger] in V7.
    autorewrite with view.
    change (loggers_used (Ev _ (inl ips) :: rest)) with (loggers_used rest).
    change (new_muxes (Ev _ (inl ips) :: rest)) with (new_muxes rest).
    by rewrite P1, P2, V7.
Qed.


(** ** The options *)




End facade.

(** * Concrete runs *)

(** Collaborators that follow a script: what each multiplexer reports and
    answers to [Close], the local IPs, and the answer to each [ListenUDP]
    by its rank.  The state counts the [ListenUDP] calls. *)
Record Script : Type := mkScript {
  script_reports : UDPMux → list Addr;
  script_close : UDPMux → option error;
  script_ips : list IP;
  script_listen : nat → PacketConn + error;
}.

Definition scripted (s : Script) : Handler nat :=
  λ X c,
    match c in Call X return nat → X * nat with
    | Mux_GetConn (MuxRef id) _ _ => λ w, ((Some (ConnRef id), None), w)
    | Mux_RemoveConnByUfrag _ _ => λ w, ((), w)
    | Mux_Close mux => λ w, (script_close s mux, w)
    | Mux_GetListenAddresses mux => λ w, (script_reports s mux, w)
    | Stdnet_NewNet => λ w, (inl (NetRef 0), w)
    | Call_localInterfaces _ _ _ _ _ => λ w, (inl (script_ips s), w)
    | Net_ListenUDP _ _ _ => λ w, (script_listen s w, S w)
    | Conn_SetReadBuffer _ _ => λ w, (None, w)
    | Conn_SetWriteBuffer _ _ => λ w, (None, w)
    | Conn_Close _ => λ w, (None, w)
    | Call_NewUDPMuxDefault _ _ _ => λ w, (MuxRef w, w)
    end.

(** Delegates whose [Close] answers follow a given sequence of outcomes,
    the state being the outcomes still to come. *)
Definition close_oracle : Handler (list (option error)) :=
  λ X c,
    match c in Call X return list (option error) → X * list (option error) with
    | Mux_GetConn _ _ _ => λ w, ((None, None), w)
    | Mux_RemoveConnByUfrag _ _ => λ w, ((), w)
    | Mux_Close _ => λ w, (default None (head w), tail w)
    | Mux_GetListenAddresses _ => λ w, ([], w)
    | Stdnet_NewNet => λ w, (inl (NetRef 0), w)
    | Call_localInterfaces _ _ _ _ _ => λ w, (inl [], w)
    | Net_ListenUDP _ _ _ => λ w, (inl (ConnRef 0), w)
    | Conn_SetReadBuffer _ _ => λ w, (None, w)
    | Conn_SetWriteBuffer _ _ => λ w, (None, w)
    | Conn_Close _ => λ w, (None, w)
    | Call_NewUDPMuxDefault _ _ _ => λ w, (MuxRef 0, w)
    end.

(** Dotted decimal for the IP and [ip:port] for the address, as Go prints
    IPv4 addresses. *)
Definition dotted (ip : IP) : string :=
  String.concat "." (pretty <$> ip).
Definition ip_port (u : UDPAddr) : string :=
  dotted (udp_IP u) +:+ ":" +:+ pretty (udp_Port u).

Definition udp (ip : IP) (port : Z) : Addr :=
  AddrUDP {| udp_IP := ip; udp_Port := port; udp_Zone := "" |}.

(** The example of the specification: multiplexer A reports 10.0.0.1:100
    and 10.0.0.1:200, multiplexer B reports 10.0.0.2:300; a third one, C,
    reports three ports of 10.0.0.3, and D reports again 10.0.0.1:100. *)
Definition muxA : UDPMux := MuxRef 0.
Definition muxB : UDPMux := MuxRef 1.
Definition muxC : UDPMux := MuxRef 2.
Definition muxD : UDPMux := MuxRef 3.

Definition errBusy : error := ErrExternal "bind: address already in use".
Definition errClosed : error := ErrExternal "use of closed network connection".
Definition errTimeout : error := ErrExternal "i/o timeout".

Definition example_script : Script := {|
  script_reports mux :=
    match mux with
    | MuxRef 0 => [udp [10; 0; 0; 1] 100; udp [10; 0; 0; 1] 200]
    | MuxRef 1 => [udp [10; 0; 0; 2] 300]
    | MuxRef 2 => [udp [10; 0; 0; 3] 100; udp [10; 0; 0; 3] 200; udp [10; 0; 0; 3] 300]
    | MuxRef 3 => [udp [10; 0; 0; 1] 100]
    | _ => []
    end;
  script_close mux :=
    match mux with
    | MuxRef 0 => Some errClosed
    | MuxRef 1 => Some errTimeout
    | _ => None
    end;
  script_ips := [[10; 0; 0; 1]];
  script_listen k := if bool_decide (k = 2%nat) then inr errBusy else inl (ConnRef k);
|}.

Definition a100 : Addr := udp [10; 0; 0; 1] 100.
Definition a200 : Addr := udp [10; 0; 0; 1] 200.
Definition b300 : Addr := udp [10; 0; 0; 2] 300.
Definition c100 : Addr := udp [10; 0; 0; 3] 100.
Definition c200 : Addr := udp [10; 0; 0; 3] 200.
Definition c300 : Addr := udp [10; 0; 0; 3] 300.

(** The constructor with Go's strings for IPv4 and the map visited in the
    order of its keys. *)
Definition construct (ms : list UDPMux) : Prog MultiUDPMuxDefault :=
  NewMultiUDPMuxDefault dotted ip_port map_to_list ms.

Lemma map_to_list_perm (m : gmap string multiPortsAddress) :
  map_to_list m ≡ₚ map_to_list m.
Proof. done. Qed.

(** The aggregate of A and B. *)
Definition aggregate_AB : MultiUDPMuxDefault := {|
  muxes := [muxA; muxB];
  localAddrToMux :=
    {[ "10.0.0.1:100" := muxA; "10.0.0.1:200" := muxA; "10.0.0.2:300" := muxB ]};
  multiPortsAddresses := [fresh_group [a100; a200]; fresh_group [b300]];
|}.

Definition log_AB : list Event :=
  [Ev (Mux_GetListenAddresses muxA) [a100; a200];
   Ev (Mux_GetListenAddresses muxB) [b300]].

Lemma construct_AB :
  run (scripted example_script) (construct [muxA; muxB]) 0%nat =
    (Some aggregate_AB, 0%nat, log_AB).
Proof. by vm_compute. Qed.

(** The aggregate of A, B and D, where D reports 10.0.0.1:100 after A. *)
Definition aggregate_ABD : MultiUDPMuxDefault := {|
  muxes := [muxA; muxB; muxD];
  localAddrToMux :=
    {[ "10.0.0.1:100" := muxD; "10.0.0.1:200" := muxA; "10.0.0.2:300" := muxB ]};
  multiPortsAddresses := [fresh_group [a100; a200; a100]; fresh_group [b300]];
|}.

Definition log_ABD : list Event :=
  [Ev (Mux_GetListenAddresses muxA) [a100; a200];
   Ev (Mux_GetListenAddresses muxB) [b300];
   Ev (Mux_GetListenAddresses muxD) [a100]].

Lemma construct_ABD :
  run (scripted example_script) (construct [muxA; muxB; muxD]) 0%nat =
    (Some aggregate_ABD, 0%nat, log_ABD).
Proof. by vm_compute. Qed.

(** The aggregate of C alone: one group of three addresses. *)
Definition aggregate_C : MultiUDPMuxDefault := {|
  muxes := [muxC];
  localAddrToMux :=
    {[ "10.0.0.3:100" := muxC; "10.0.0.3:200" := muxC; "10.0.0.3:300" := muxC ]};
  multiPortsAddresses := [fresh_group [c100; c200; c300]];
|}.

Lemma construct_C :
  run (scripted example_script) (construct [muxC]) 0%nat =
    (Some aggregate_C, 0%nat, [Ev (Mux_GetListenAddresses muxC) [c100; c200; c300]]).
Proof. by vm_compute. Qed.

(** ** The example of the specification *)

(** The first listing of the aggregate of A and B returns one address per
    IP, the second alternates on 10.0.0.1 and repeats 10.0.0.2:300. *)
Example listings_AB :
  (GetListenAddresses aggregate_AB).1 = Some [a200; b300] ∧
  (GetListenAddresses (GetListenAddresses aggregate_AB).2).1 = Some [a100; b300] ∧
  (GetListenAddresses (after_listings 2 aggregate_AB)).1 = Some [a200; b300].
Proof. by vm_compute. Qed.

(** A and B fail to close: [Close] calls both and returns B's error. *)
Example close_AB :
  run (scripted example_script) (Close aggregate_AB) 0%nat =
    (Some (Some errTimeout), 0%nat,
     [Ev (Mux_Close muxA) (Some errClosed); Ev (Mux_Close muxB) (Some errTimeout)]).
Proof. by vm_compute. Qed.

(** Every sequence of close outcomes can be met, and [Close] then returns
    the last error of the sequence. *)
Lemma close_loop_oracle ms outs err :
  length outs = length ms →
  close_answers (run close_oracle (close_loop ms err) outs).2 = outs.
Proof.
  revert outs err. induction ms as [|mux ms IH]; intros [|out outs] err Hlen;
    try done.
  cbn [close_loop]. unfold mbind, Prog_bind. rewrite run_bind, run_call.
  cbn [close_oracle fst snd head tail default].
  specialize (IH outs (match out with Some _ => out | None => err end)).
  destruct (run close_oracle (close_loop ms _) outs) as [[r w2] l2].
  cbn [fst snd app] in *.
  change (out :: close_answers l2 = out :: outs). rewrite IH; [done|].
  cbn in Hlen. lia.
Qed.

Lemma Close_any_outcomes m outs :
  length outs = length (muxes m) →
  close_answers (run close_oracle (Close m) outs).2 = outs ∧
  (run close_oracle (Close m) outs).1.1 = Some (last (omap id outs)).
Proof.
  intros Hlen. pose proof (close_loop_oracle (muxes m) outs None Hlen) as Houts.
  split; [done|]. unfold Close.
  destruct (run_close_loop close_oracle (muxes m) None outs) as (Hr & _ & _).
  rewrite Hr, Houts. f_equal. by destruct (last (omap id outs)).
Qed.

(** D reported 10.0.0.1:100 after A: [GetConn] on it goes to D. *)
Example getconn_ABD :
  GetConn ip_port aggregate_ABD "ufrag" a100 = call (Mux_GetConn muxD "ufrag" a100) ∧
  GetConn ip_port aggregate_ABD "ufrag" a200 = call (Mux_GetConn muxA "ufrag" a200) ∧
  GetConn ip_port aggregate_ABD "ufrag" c100 = Ret (None, Some errNoUDPMuxAvailable).
Proof. by vm_compute. Qed.

(** Five ports on one IP, the third socket fails to open: the first two
    are closed and nothing is returned but the error. *)
Definition log_third_of_five : list Event :=
  [Ev Stdnet_NewNet (inl (NetRef 0));
   Ev (Call_localInterfaces (NetRef 0) None None [NetworkTypeUDP4; NetworkTypeUDP6] false)
      (inl [[10; 0; 0; 1]]);
   Ev (Net_ListenUDP (NetRef 0) "udp" (mkUDPAddr [10; 0; 0; 1] 5000 "")) (inl (ConnRef 0));
   Ev (Net_ListenUDP (NetRef 0) "udp" (mkUDPAddr [10; 0; 0; 1] 5001 "")) (inl (ConnRef 1));
   Ev (Net_ListenUDP (NetRef 0) "udp" (mkUDPAddr [10; 0; 0; 1] 5002 "")) (inr errBusy);
   Ev (Conn_Close (ConnRef 0)) None;
   Ev (Conn_Close (ConnRef 1)) None].

Lemma third_of_five :
  run (scripted example_script)
      (NewMultiUDPMuxFromPorts dotted ip_port map_to_list
         [5000; 5001; 5002; 5003; 5004] []) 0%nat =
    (Some (None, Some errBusy), 3%nat, log_third_of_five).
Proof. by vm_compute. Qed.

(** ** The theorems at concrete inputs *)

(** Two multiplexers that report no address and of which the first fails
    to close. *)
Definition quiet_AB : MultiUDPMuxDefault :=
  {| muxes := [muxA; muxB]; localAddrToMux := ∅; multiPortsAddresses := [] |}.

Definition log_quiet_AB : list Event :=
  [Ev (Mux_GetListenAddresses muxA) []; Ev (Mux_GetListenAddresses muxB) []].

Lemma construct_quiet_AB :
  run close_oracle (construct [muxA; muxB]) [Some errClosed; None] =
    (Some quiet_AB, [Some errClosed; None], log_quiet_AB).
Proof. by vm_compute. Qed.

Lemma aggregate_without_addresses_witness :
  ((∀ m : gmap string multiPortsAddress, map_to_list m ≡ₚ map_to_list m) ∧
   run close_oracle (construct [muxA; muxB]) [Some errClosed; None] =
     (Some quiet_AB, [Some errClosed; None], log_quiet_AB) ∧
   reports log_quiet_AB = []) ∧
  run close_oracle (construct []) [Some errClosed; None] =
    (Some empty_aggregate, [Some errClosed; None], []) ∧
  GetListenAddresses quiet_AB = (Some [], quiet_AB) ∧
  (∀ ufrag addr,
     run close_oracle (GetConn ip_port quiet_AB ufrag addr) [Some errClosed; None] =
       (Some (None, Some errNoUDPMuxAvailable), [Some errClosed; None], [])) ∧
  call_of <$> (run close_oracle (Close quiet_AB) [Some errClosed; None]).2 =
    [Was (Mux_Close muxA); Was (Mux_Close muxB)].
Proof.
  assert (Hrep : reports log_quiet_AB = []) by reflexivity.
  split; [by split_and!; [apply map_to_list_perm|apply construct_quiet_AB|]|].
  destruct (aggregate_without_addresses dotted ip_port map_to_list map_to_list_perm
              close_oracle [Some errClosed; None]) as [(Hnew & _) Hquiet].
  destruct (Hquiet [muxA; muxB] _ _ _ construct_quiet_AB Hrep)
    as (m & Hm & _ & _ & _ & _ & Hlist & Hconn & Hclose & _).
  injection Hm as <-.
  split_and!; [exact Hnew|exact Hlist|exact (Hconn _)|exact (proj1 (Hclose _))].
Defined.

(** The aggregate of multiplexer A alone, when A reports no address. *)
Definition quiet_A : MultiUDPMuxDefault :=
  {| muxes := [muxA]; localAddrToMux := ∅; multiPortsAddresses := [] |}.

(** C9 as it is written fails on an aggregate whose multiplexers report no
    address: constructed from multiplexer A alone, which reports nothing
    and answers [Close] with an error, the aggregate has an empty Address
    Index and no group, yet its [Close] calls A and returns A's error, not
    nil, and its [RemoveConnByUfrag] calls A. *)
Lemma Close_error_of_silent_multiplexer :
  run close_oracle (construct [muxA]) [Some errClosed] =
    (Some quiet_A, [Some errClosed], [Ev (Mux_GetListenAddresses muxA) []]) ∧
  reports [Ev (Mux_GetListenAddresses muxA) []] = [] ∧
  run close_oracle (Close quiet_A) [Some errClosed] =
    (Some (Some errClosed), [], [Ev (Mux_Close muxA) (Some errClosed)]) ∧
  (run close_oracle (Close quiet_A) [Some errClosed]).1.1 ≠ Some None ∧
  run close_oracle (RemoveConnByUfrag quiet_A "ufrag") [Some errClosed] =
    (Some (), [Some errClosed], [Ev (Mux_RemoveConnByUfrag muxA "ufrag") ()]) ∧
  (run close_oracle (RemoveConnByUfrag quiet_A "ufrag") [Some errClosed]).2 ≠ [].
Proof. split_and!; by vm_compute. Qed.

Lemma address_index_last_reporter_witness :
  run (scripted example_script) (construct [muxA; muxB; muxD]) 0%nat =
    (Some aggregate_ABD, 0%nat, log_ABD) ∧
  localAddrToMux aggregate_ABD !! "10.0.0.1:100" =
    fst <$> last (filter (λ p, Addr_String ip_port p.2 = "10.0.0.1:100") (reports log_ABD)).
Proof.
  split; [apply construct_ABD|].
  apply (address_index_last_reporter dotted ip_port map_to_list
           (scripted example_script) [muxA; muxB; muxD] 0%nat aggregate_ABD 0%nat log_ABD
           construct_ABD).
Defined.

Lemma first_call_returns_second_address_witness :
  (run (scripted example_script) (construct [muxA; muxB]) 0%nat =
     (Some aggregate_AB, 0%nat, log_AB) ∧
   fresh_group [a100; a200] ∈ multiPortsAddresses aggregate_AB ∧
   (2 ≤ length [a100; a200])%nat ∧
   Z.of_nat (length [a100; a200]) ≤ max_int) ∧
  (next (fresh_group [a100; a200])).1 = [a100; a200] !! 1%nat ∧
  next_n 2 (fresh_group [a100; a200]) = Some <$> [a200; a100].
Proof.
  assert (H1 : fresh_group [a100; a200] ∈ multiPortsAddresses aggregate_AB) by left.
  assert (H2 : (2 ≤ length (addresses (fresh_group [a100; a200])))%nat) by (cbn; lia).
  assert (H3 : Z.of_nat (length (addresses (fresh_group [a100; a200]))) ≤ max_int)
    by (by vm_compute).
  split; [by split_and!; [apply construct_AB|..]|].
  destruct (first_call_returns_second_address dotted ip_port map_to_list map_to_list_perm
              (scripted example_script) [muxA; muxB] 0%nat aggregate_AB 0%nat log_AB
              (fresh_group [a100; a200]) construct_AB H1 H2 H3)
    as (_ & _ & Hfirst & Hcycle & _).
  by split.
Defined.

Lemma socket_open_failure_closes_opened_witness :
  (run (scripted example_script)
       (NewMultiUDPMuxFromPorts dotted ip_port map_to_list
          [5000; 5001; 5002; 5003; 5004] []) 0%nat =
     (Some (None, Some errBusy), 3%nat, log_third_of_five) ∧
   inr errBusy ∈ listen_answers log_third_of_five) ∧
  listen_answers log_third_of_five = [inl (ConnRef 0); inl (ConnRef 1); inr errBusy] ∧
  closed_conns log_third_of_five = [ConnRef 0; ConnRef 1] ∧
  created_muxes log_third_of_five = [].
Proof.
  assert (Hin : inr errBusy ∈ listen_answers log_third_of_five)
    by (cbn; do 2 right; left).
  split; [split; [apply third_of_five|done]|].
  destruct (socket_open_failure_closes_opened dotted ip_port map_to_list
              (scripted example_script) [5000; 5001; 5002; 5003; 5004] [] 0%nat
              _ _ _ errBusy third_of_five Hin)
    as (_ & Hanswers & _ & Hclosed & Hcreated & _).
  split_and!; [apply Hanswers|apply Hclosed|apply Hcreated].
Defined.

(** ** The listing at the end of the [int32] range *)

(** An aggregate with a single group lists what [next] returns. *)
Lemma GetListenAddresses_single m g :
  multiPortsAddresses m = [g] →
  (GetListenAddresses m).1 = (λ a, [a]) <$> (next g).1 ∧
  multiPortsAddresses (GetListenAddresses m).2 = [(next g).2].
Proof.
  intros Hm. unfold GetListenAddresses. rewrite Hm. cbn [collect_next].
  by destruct (next g) as [[a|] g'].
Qed.

Lemma after_listings_single k m g :
  multiPortsAddresses m = [g] →
  multiPortsAddresses (after_listings k m) = [after_calls k g].
Proof.
  intros Hm. induction k as [|k IH] using N.peano_ind; [done|].
  unfold after_listings, after_calls in *. rewrite !N.iter_succ.
  by apply GetListenAddresses_single.
Qed.

(** Up to 2^31 - 2 earlier listings, the aggregate of C lists one of C's
    addresses. *)
Lemma listings_C_before_overflow (k : N) :
  Z.of_N k < max_int →
  is_Some (GetListenAddresses (after_listings k aggregate_C)).1.
Proof.
  intros Hk.
  destruct (GetListenAddresses_single (after_listings k aggregate_C)
              (after_calls k (fresh_group [c100; c200; c300]))) as [-> _].
  { by apply after_listings_single. }
  destruct (next_ok_before_overflow k [c100; c200; c300]) as [a ->]; [|done|by eexists].
  by vm_compute.
Qed.

(** C4, at its failing input.  The aggregate of C, whose only group has
    three addresses, 2^31 - 1 listings after its construction: every cursor
    is at the largest [int32] and the next [GetListenAddresses] panics in
    [next], returning no list. *)
Theorem GetListenAddresses_panics_after_cursor_overflow :
  run (scripted example_script) (construct [muxC]) 0%nat =
    (Some aggregate_C, 0%nat, [Ev (Mux_GetListenAddresses muxC) [c100; c200; c300]]) ∧
  multiPortsAddresses (after_listings (2 ^ 31 - 1) aggregate_C) =
    [{| addresses := [c100; c200; c300]; nextPos := max_int |}] ∧
  (GetListenAddresses (after_listings (2 ^ 31 - 1) aggregate_C)).1 = None.
Proof.
  assert (Hgroups :
            multiPortsAddresses (after_listings (2 ^ 31 - 1) aggregate_C) =
              [{| addresses := [c100; c200; c300]; nextPos := max_int |}]).
  { rewrite <- after_calls_max_int.
    exact (after_listings_single (2 ^ 31 - 1) aggregate_C
             (fresh_group [c100; c200; c300]) eq_refl). }
  split_and!; [exact construct_C|exact Hgroups|].
  destruct (GetListenAddresses_single _ _ Hgroups) as [Hlist _].
  etrans; [exact Hlist|]. vm_compute. reflexivity.
Qed.

(** * Further concrete runs *)

(** Collaborators of the socket factory that follow a scenario: what
    [stdnet.NewNet] and [localInterfaces] answer, what each [ListenUDP]
    answers by its rank, and what the multiplexer created on the socket of
    a given rank reports.  Setting a buffer always fails, which nobody
    notices.  The state counts the [ListenUDP] calls. *)
Record Scenario : Type := mkScenario {
  sc_net : Net + error;
  sc_ips : list IP + error;
  sc_listen : nat → PacketConn + error;
  sc_reports : nat → list Addr;
}.

Fixpoint conn_rank (conn : PacketConn) : nat :=
  match conn with
  | ConnRef id => id
  | BatchConn conn' _ _ => conn_rank conn'
  end.

Definition staged (s : Scenario) : Handler nat :=
  λ X c,
    match c in Call X return nat → X * nat with
    | Mux_GetConn (MuxRef id) _ _ => λ w, ((Some (ConnRef id), None), w)
    | Mux_RemoveConnByUfrag _ _ => λ w, ((), w)
    | Mux_Close _ => λ w, (None, w)
    | Mux_GetListenAddresses (MuxRef id) => λ w, (sc_reports s id, w)
    | Stdnet_NewNet => λ w, (sc_net s, w)
    | Call_localInterfaces _ _ _ _ _ => λ w, (sc_ips s, w)
    | Net_ListenUDP _ _ _ => λ w, (sc_listen s w, S w)
    | Conn_SetReadBuffer _ _ => λ w, (Some errBusy, w)
    | Conn_SetWriteBuffer _ _ => λ w, (Some errBusy, w)
    | Conn_Close _ => λ w, (None, w)
    | Call_NewUDPMuxDefault _ conn _ => λ w, (MuxRef (conn_rank conn), w)
    end.

(** The factory with Go's strings for IPv4 and the map visited in the
    order of its keys. *)
Definition from_ports (ports : list Z) (opts : list UDPMuxFromPortOption) :
    Prog (option MultiUDPMuxDefault * option error) :=
  NewMultiUDPMuxFromPorts dotted ip_port map_to_list ports opts.

(** Two local IPs, and every socket opens. *)
Definition two_ips : Scenario := {|
  sc_net := inl (NetRef 7);
  sc_ips := inl [[10; 0; 0; 1]; [10; 0; 0; 2]];
  sc_listen k := inl (ConnRef k);
  sc_reports k :=
    match k with
    | 0%nat => [udp [10; 0; 0; 1] 5000]
    | 1%nat => [udp [10; 0; 0; 1] 5001]
    | 2%nat => [udp [10; 0; 0; 2] 5000]
    | _ => [udp [10; 0; 0; 2] 5001]
    end;
|}.

(** No network to be had. *)
Definition no_net : Scenario := {|
  sc_net := inr errTimeout;
  sc_ips := inl [[10; 0; 0; 1]];
  sc_listen k := inl (ConnRef k);
  sc_reports k := [];
|}.

(** The local IPs cannot be resolved. *)
Definition no_resolution : Scenario := {|
  sc_net := inl (NetRef 7);
  sc_ips := inr errTimeout;
  sc_listen k := inl (ConnRef k);
  sc_reports k := [];
|}.

(** No local IP passes the filters. *)
Definition no_ip : Scenario := {|
  sc_net := inl (NetRef 7);
  sc_ips := inl [];
  sc_listen k := inl (ConnRef k);
  sc_reports k := [];
|}.

Definition tuned : list UDPMuxFromPortOption :=
  [UDPMuxFromPortWithReadBufferSize 4096; UDPMuxFromPortWithBatchWrite 8 1000].

(** The aggregate of the four multiplexers of two ports on two IPs. *)
Definition aggregate_2x2 : MultiUDPMuxDefault := {|
  muxes := [MuxRef 0; MuxRef 1; MuxRef 2; MuxRef 3];
  localAddrToMux :=
    {[ "10.0.0.1:5000" := MuxRef 0; "10.0.0.1:5001" := MuxRef 1;
       "10.0.0.2:5000" := MuxRef 2; "10.0.0.2:5001" := MuxRef 3 ]};
  multiPortsAddresses :=
    [fresh_group [udp [10; 0; 0; 1] 5000; udp [10; 0; 0; 1] 5001];
     fresh_group [udp [10; 0; 0; 2] 5000; udp [10; 0; 0; 2] 5001]];
|}.

Lemma run_triple {A B C} (x : A * B * C) : x = (x.1.1, x.1.2, x.2).
Proof. by destruct x as [[a b] c]. Qed.

Lemma run_2x2 :
  run (staged two_ips) (from_ports [5000; 5001] tuned) 0%nat =
    (Some (Some aggregate_2x2, None), 4%nat,
     (run (staged two_ips) (from_ports [5000; 5001] tuned) 0%nat).2).
Proof. by vm_compute. Qed.

(** Two local IPs and one port. *)
Definition two_ips_one_port : Scenario := {|
  sc_net := inl (NetRef 7);
  sc_ips := inl [[10; 0; 0; 1]; [10; 0; 0; 2]];
  sc_listen k := inl (ConnRef k);
  sc_reports k :=
    match k with
    | 0%nat => [udp [10; 0; 0; 1] 5000]
    | _ => [udp [10; 0; 0; 2] 5000]
    end;
|}.

Definition aggregate_2x1 : MultiUDPMuxDefault := {|
  muxes := [MuxRef 0; MuxRef 1];
  localAddrToMux := {[ "10.0.0.1:5000" := MuxRef 0; "10.0.0.2:5000" := MuxRef 1 ]};
  multiPortsAddresses :=
    [fresh_group [udp [10; 0; 0; 1] 5000]; fresh_group [udp [10; 0; 0; 2] 5000]];
|}.

Lemma run_2x1 :
  run (staged two_ips_one_port)
      (NewMultiUDPMuxFromPort dotted ip_port map_to_list 5000 []) 0%nat =
    (Some (Some aggregate_2x1, None), 2%nat,
     (run (staged two_ips_one_port)
          (NewMultiUDPMuxFromPort dotted ip_port map_to_list 5000 []) 0%nat).2).
Proof. by vm_compute. Qed.

(** ** The further theorems at concrete inputs *)

Lemma next_returns_member_iff_witness :
  fits_int32 (fresh_group [a100; a200]) ∧
  (next (fresh_group [a100; a200])).1 = Some a200.
Proof.
  assert (Hfit : fits_int32 (fresh_group [a100; a200])) by (by vm_compute).
  split; [exact Hfit|].
  destruct (next_returns_member_iff (fresh_group [a100; a200]) Hfit) as (_ & Hread & _).
  rewrite Hread; [reflexivity|]. left. by vm_compute.
Defined.

Lemma rotation_before_overflow_witness :
  (fits_int32 (fresh_group [a100; a200]) ∧ 0 ≤ 0 ∧ 0 + 2 ≤ max_int) ∧
  next_n 2 (fresh_group [a100; a200]) = [Some a200; Some a100].
Proof.
  assert (Hfit : fits_int32 (fresh_group [a100; a200])) by (by vm_compute).
  assert (Hk : nextPos (fresh_group [a100; a200])
               + Z.of_nat (length (addresses (fresh_group [a100; a200]))) ≤ max_int)
    by (by vm_compute).
  split; [split_and!; [exact Hfit|lia|by vm_compute]|].
  destruct (rotation_before_overflow (fresh_group [a100; a200]) Hfit (Z.le_refl 0) Hk)
    as [Hcycle _].
  exact Hcycle.
Defined.

Lemma cursor_counts_calls_witness :
  in_range 0 ∧ nextPos (after_calls 5 (fresh_group [a100; a200])) = 5.
Proof.
  assert (Hin : in_range (nextPos (fresh_group [a100; a200]))) by (by vm_compute).
  split; [exact Hin|].
  destruct (cursor_counts_calls 5 (fresh_group [a100; a200]) Hin) as (_ & Hpos & _).
  rewrite Hpos. reflexivity.
Defined.

Lemma constructor_groups_by_ip_witness :
  run (staged two_ips) (construct [MuxRef 0; MuxRef 1; MuxRef 2; MuxRef 3]) 0%nat =
    (Some aggregate_2x2, 0%nat,
     (run (staged two_ips) (construct [MuxRef 0; MuxRef 1; MuxRef 2; MuxRef 3]) 0%nat).2) ∧
  muxes aggregate_2x2 = [MuxRef 0; MuxRef 1; MuxRef 2; MuxRef 3] ∧
  Forall (λ g, addresses g ≠ [] ∧ nextPos g = 0) (multiPortsAddresses aggregate_2x2).
Proof.
  assert (Hrun : run (staged two_ips) (construct [MuxRef 0; MuxRef 1; MuxRef 2; MuxRef 3]) 0%nat =
    (Some aggregate_2x2, 0%nat,
     (run (staged two_ips) (construct [MuxRef 0; MuxRef 1; MuxRef 2; MuxRef 3]) 0%nat).2))
    by (by vm_compute).
  split; [exact Hrun|].
  destruct (constructor_groups_by_ip dotted ip_port map_to_list map_to_list_perm
              _ _ _ _ _ _ Hrun) as (Hmuxes & ips & _ & _ & _ & Hall).
  by split.
Defined.

Lemma constructor_groups_partition_witness :
  run (scripted example_script) (construct [muxA; muxB; muxD]) 0%nat =
    (Some aggregate_ABD, 0%nat, log_ABD) ∧
  (multiPortsAddresses aggregate_ABD ≫= addresses) ≡ₚ [a100; a200; b300; a100].
Proof.
  split; [exact construct_ABD|].
  exact (constructor_groups_partition dotted ip_port map_to_list map_to_list_perm
           _ _ _ _ _ _ construct_ABD).
Defined.

Lemma GetConn_calls_a_constituent_witness :
  run (scripted example_script) (construct [muxA; muxB; muxD]) 0%nat =
    (Some aggregate_ABD, 0%nat, log_ABD) ∧
  (∀ s mux, localAddrToMux aggregate_ABD !! s = Some mux → mux ∈ [muxA; muxB; muxD]).
Proof.
  split; [exact construct_ABD|].
  exact (proj1 (GetConn_calls_a_constituent dotted ip_port map_to_list
                  _ _ _ _ _ _ construct_ABD)).
Defined.

Lemma sizes_AB :
  Forall (λ g, Z.of_nat (length (addresses g)) ≤ max_int) (multiPortsAddresses aggregate_AB).
Proof. repeat constructor; by vm_compute. Qed.

Lemma listing_one_address_per_ip_witness :
  (run (scripted example_script) (construct [muxA; muxB]) 0%nat =
     (Some aggregate_AB, 0%nat, log_AB) ∧
   Forall (λ g, Z.of_nat (length (addresses g)) ≤ max_int)
          (multiPortsAddresses aggregate_AB)) ∧
  ∃ ips : list string,
    ips = ["10.0.0.1"; "10.0.0.2"] ∧
    ∀ k : N,
      Z.of_N k < max_int →
      ∃ l, (GetListenAddresses (after_listings k aggregate_AB)).1 = Some l ∧
           Addr_ip dotted <$> l = Some <$> ips.
Proof.
  split; [split; [exact construct_AB|exact sizes_AB]|].
  destruct (listing_one_address_per_ip dotted ip_port map_to_list map_to_list_perm
              _ _ _ _ _ _ construct_AB sizes_AB)
    as (ips & _ & _ & Hall).
  exists ips. split.
  - assert (H0 : Z.of_N 0 < max_int) by (by vm_compute).
    destruct (Hall 0%N H0) as (l & Hl & Hips & _).
    assert (Heq : (GetListenAddresses (after_listings 0 aggregate_AB)).1 = Some [a200; b300])
      by (by vm_compute).
    rewrite Heq in Hl. injection Hl as <-.
    assert (Hnames : Addr_ip dotted <$> [a200; b300] = [Some "10.0.0.1"; Some "10.0.0.2"])
      by (by vm_compute).
    rewrite Hnames in Hips.
    destruct ips as [|i1 [|i2 [|i3 ips]]]; try discriminate Hips.
    by injection Hips as <- <-.
  - intros k Hk. destruct (Hall k Hk) as (l & Hl & Hips & _). by exists l.
Defined.

Lemma every_address_is_listed_witness :
  (run (scripted example_script) (construct [muxA; muxB]) 0%nat =
     (Some aggregate_AB, 0%nat, log_AB) ∧
   Forall (λ g, Z.of_nat (length (addresses g)) ≤ max_int)
          (multiPortsAddresses aggregate_AB) ∧
   a100 ∈ (reports log_AB).*2) ∧
  ∃ (k : N) l, (GetListenAddresses (after_listings k aggregate_AB)).1 = Some l ∧ a100 ∈ l.
Proof.
  assert (Hin : a100 ∈ (reports log_AB).*2) by (cbn; left).
  split; [by split_and!; [exact construct_AB|exact sizes_AB|]|].
  destruct (every_address_is_listed dotted ip_port map_to_list map_to_list_perm
              _ _ _ _ _ _ a100 construct_AB sizes_AB Hin)
    as (k & g & l & _ & _ & _ & Hl & Hmem).
  by exists k, l.
Defined.

Lemma network_creation_failure_witness :
  inr errTimeout ∈ net_answers (run (staged no_net) (from_ports [5000] []) 0%nat).2 ∧
  (run (staged no_net) (from_ports [5000] []) 0%nat).2 = [Ev Stdnet_NewNet (inr errTimeout)] ∧
  (run (staged no_net) (from_ports [5000] []) 0%nat).1.1 =
    Some (None, Some (ErrWrap "failed to get create network" errTimeout)).
Proof.
  assert (Hin : inr errTimeout
                  ∈ net_answers (run (staged no_net) (from_ports [5000] []) 0%nat).2)
    by (cbn; left).
  split; [exact Hin|].
  destruct (network_creation_failure dotted ip_port map_to_list (staged no_net)
              [5000] [] 0%nat _ _ _ errTimeout (run_triple _) Hin) as (_ & Hlog & Hr).
  by split.
Defined.

Lemma resolution_failure_witness :
  inr errTimeout
    ∈ resolution_answers (run (staged no_resolution) (from_ports [5000] []) 0%nat).2 ∧
  (run (staged no_resolution) (from_ports [5000] []) 0%nat).1.1 = Some (None, Some errTimeout) ∧
  listen_addrs (run (staged no_resolution) (from_ports [5000] []) 0%nat).2 = [].
Proof.
  assert (Hin : inr errTimeout
                  ∈ resolution_answers
                      (run (staged no_resolution) (from_ports [5000] []) 0%nat).2)
    by (cbn; left).
  split; [exact Hin|].
  destruct (resolution_failure dotted ip_port map_to_list (staged no_resolution)
              [5000] [] 0%nat _ _ _ errTimeout (run_triple _) Hin)
    as (Hr & _ & _ & Hnone & _).
  by split.
Defined.

Lemma one_network_one_resolution_witness :
  (∀ err, inr err ∉ net_answers (run (staged two_ips) (from_ports [5000; 5001] tuned) 0%nat).2) ∧
  Forall (λ x, x = Some (NetRef 7))
         (nets_used (run (staged two_ips) (from_ports [5000; 5001] tuned) 0%nat).2).
Proof.
  assert (Hok : ∀ err, inr err
                  ∉ net_answers (run (staged two_ips) (from_ports [5000; 5001] tuned) 0%nat).2).
  { intros err. cbn. by intros [=]%list_elem_of_singleton. }
  split; [exact Hok|].
  destruct (one_network_one_resolution dotted ip_port map_to_list (staged two_ips)
              [5000; 5001] tuned 0%nat _ _ _ (run_triple _) Hok)
    as (pre & n & answer & rest & Hlog & _ & _ & _ & Hnets).
  assert (Hn : head (nets_used (run (staged two_ips) (from_ports [5000; 5001] tuned) 0%nat).2)
               = Some (Some (NetRef 7))) by (by vm_compute).
  destruct (nets_used _) as [|x l]; [done|].
  apply Forall_cons in Hnets as Hx. destruct Hx as [-> _]. cbn in Hn.
  injection Hn as <-. exact Hnets.
Defined.

Lemma construction_from_ports_success_witness :
  run (staged two_ips) (from_ports [5000; 5001] tuned) 0%nat =
    (Some (Some aggregate_2x2, None), 4%nat,
     (run (staged two_ips) (from_ports [5000; 5001] tuned) 0%nat).2) ∧
  ∃ ips,
    listen_addrs (run (staged two_ips) (from_ports [5000; 5001] tuned) 0%nat).2
      = listen_targets ips [5000; 5001] ∧
    length (muxes aggregate_2x2) = (length ips * 2)%nat.
Proof.
  split; [exact run_2x2|].
  destruct (construction_from_ports_success dotted ip_port map_to_list (staged two_ips)
              [5000; 5001] tuned 0%nat _ _ _ _ run_2x2)
    as (_ & ips & _ & Haddrs & _ & _ & _ & _ & Hlen).
  by exists ips.
Defined.

Lemma no_pair_no_multiplexer_witness :
  ((∀ m : gmap string multiPortsAddress, map_to_list m ≡ₚ map_to_list m) ∧
   resolution_answers (run (staged no_ip) (from_ports [5000] []) 0%nat).2 = [inl []] ∧
   ([] = @nil IP ∨ [5000] = [])) ∧
  (run (staged no_ip) (from_ports [5000] []) 0%nat).1.1 = Some (Some empty_aggregate, None).
Proof.
  assert (Hres : resolution_answers (run (staged no_ip) (from_ports [5000] []) 0%nat).2
                 = [inl []]) by reflexivity.
  split; [by split_and!; [exact map_to_list_perm|exact Hres|left]|].
  exact (proj1 (no_pair_no_multiplexer dotted ip_port map_to_list map_to_list_perm
                  (staged no_ip) [5000] [] 0%nat _ _ _ [] (run_triple _) Hres
                  (or_introl eq_refl))).
Defined.

Lemma buffers_set_on_opened_sockets_witness :
  read_buffer_calls (run (staged two_ips) (from_ports [5000; 5001] tuned) 0%nat).2 =
    (λ c, (c, 4096)) <$>
      opened (run (staged two_ips) (from_ports [5000; 5001] tuned) 0%nat).2 ∧
  write_buffer_calls (run (staged two_ips) (from_ports [5000; 5001] tuned) 0%nat).2 = [].
Proof.
  exact (buffers_set_on_opened_sockets dotted ip_port map_to_list (staged two_ips)
           [5000; 5001] tuned 0%nat _ _ _ (run_triple _)).
Defined.

Lemma one_socket_per_ip_witness :
  run (staged two_ips_one_port)
      (NewMultiUDPMuxFromPort dotted ip_port map_to_list 5000 []) 0%nat =
    (Some (Some aggregate_2x1, None), 2%nat,
     (run (staged two_ips_one_port)
          (NewMultiUDPMuxFromPort dotted ip_port map_to_list 5000 []) 0%nat).2) ∧
  ∃ ips : list IP, length (muxes aggregate_2x1) = length ips.
Proof.
  split; [exact run_2x1|].
  destruct (one_socket_per_ip dotted ip_port map_to_list (staged two_ips_one_port)
              5000 [] 0%nat _ _ _ _ run_2x1) as (_ & ips & _ & _ & Hlen).
  by exists ips.
Defined.

Lemma error_iff_collaborator_failure_witness :
  run (scripted example_script)
      (NewMultiUDPMuxFromPorts dotted ip_port map_to_list
         [5000; 5001; 5002; 5003; 5004] []) 0%nat =
    (Some (None, Some errBusy), 3%nat, log_third_of_five) ∧
  (ErrWrap "failed to get create network" <$> errors_in (net_answers log_third_of_five))
    ++ errors_in (resolution_answers log_third_of_five)
    ++ errors_in (listen_answers log_third_of_five)
  = [errBusy].
Proof.
  split; [exact third_of_five|].
  exact (proj1 (error_iff_collaborator_failure dotted ip_port map_to_list
                  (scripted example_script) [5000; 5001; 5002; 5003; 5004] [] 0%nat
                  _ _ _ _ third_of_five)).
Defined.

Lemma muxes_created_with_logger_witness :
  loggers_used (run (staged two_ips)
                    (from_ports [5000; 5001]
                       [UDPMuxFromPortWithLogger (Some (LoggerRef 3))]) 0%nat).2 =
    replicate 4 (Some (LoggerRef 3)).
Proof.
  exact (muxes_created_with_logger dotted ip_port map_to_list (staged two_ips)
           [5000; 5001] [UDPMuxFromPortWithLogger (Some (LoggerRef 3))] 0%nat
           _ _ _ (run_triple _)).
Defined.
